(** * NLP-with-Transformers: vocabulary, BPTT batcher, decoder, paired dataset

    A shallow embedding of [src/RNN.py] and [src/Transformermodel.py].

    - Python dictionaries are stdpp [gmap]s, Python lists and 1-D tensors are
      [list]s, 2-D tensors carry their column count next to their rows.
    - Code that can raise returns a [result]: [Ok v] or [Raise e] with the
      Python exception class [e].
    - Objects that the source mutates in place (the vocabulary) are threaded
      through explicitly: a call returns the updated object next to its value.
    - Lengths, counts and token IDs are natural numbers, as in every call of
      the scripts; dividing by a zero count raises.
    - The dense numerical backend (embedding, LSTM cell, soft-max, optimizer)
      is a parameter of the development. *)

From stdpp Require Import gmap strings list fin_maps.
From Stdlib Require Import QArith.
Local Open Scope string_scope.
Local Open Scope list_scope.
Local Open Scope nat_scope.

(** ** Exceptions *)

Inductive exn : Set :=
| KeyError | NameError | IndexError | TypeError
| ZeroDivisionError | AssertionError | RuntimeError.

Inductive result (A : Type) : Type :=
| Ok (a : A)
| Raise (e : exn).
Arguments Ok {A} a.
Arguments Raise {A} e.

Global Instance result_ret : MRet result := λ A, Ok.
Global Instance result_bind : MBind result :=
  λ A B f m, match m with Ok a => f a | Raise e => Raise e end.
Global Instance result_fmap : FMap result :=
  λ A B f m, match m with Ok a => Ok (f a) | Raise e => Raise e end.

Definition raises {A} (m : result A) : Prop := ∃ e, m = Raise e.

(** [d[k]] on a dictionary: [KeyError] when [k] is absent. *)
Definition getitem `{Countable K} {V} (d : gmap K V) (k : K) : result V :=
  match d !! k with
  | Some v => Ok v
  | None => Raise KeyError
  end.

(** [a // b] on non-negative integers. *)
Definition floordiv (a b : nat) : result nat :=
  if decide (b = 0) then Raise ZeroDivisionError else Ok (a / b).

(** [assert c]. *)
Definition py_assert (c : bool) : result unit :=
  if c then Ok tt else Raise AssertionError.

(** [list(s)]: the one-character strings of [s], in order. *)
Fixpoint chars (s : string) : list string :=
  match s with
  | EmptyString => []
  | String a r => String a EmptyString :: chars r
  end.

(** [''.join(l)]. *)
Definition join (l : list string) : string := foldr String.append "" l.

(** [l[a:b]] for [0 <= a], [0 <= b]: Python clamps both ends. *)
Definition slice {A} (a b : nat) (l : list A) : list A := take (b - a) (drop a l).

(** [dst[:n] = src] on 1-D tensors: the sizes of the slice and of [src] must
    agree. *)
Definition setslice_prefix (dst : list nat) (n : nat) (src : list nat)
  : result (list nat) :=
  if decide (length (take n dst) = length src)
  then Ok (src ++ drop n dst)
  else Raise RuntimeError.

(** ** src/RNN.py *)

Module RNN.

(** *** class Vocabulary *)

Record Vocabulary := mkVocabulary {
  id_to_string : gmap nat string;
  string_to_id : gmap string nat;
  pad_id : nat;
  unk_id : nat
}.

(** [Vocabulary.__init__(pad_token, unk_token)] *)
Definition Vocabulary_init (pad_token unk_token : string) : Vocabulary :=
  let i2s := <[0 := pad_token]> (∅ : gmap nat string) in
  let s2i := <[pad_token := 0]> (∅ : gmap string nat) in
  let i2s := <[1 := unk_token]> i2s in
  let s2i := <[unk_token := 1]> s2i in
  {| id_to_string := i2s; string_to_id := s2i; pad_id := 0; unk_id := 1 |}.

(** [Vocabulary()] with the default tokens. *)
Definition Vocabulary_default : Vocabulary := Vocabulary_init "<pad>" "<unk>".

(** [Vocabulary.__len__] *)
Definition len (v : Vocabulary) : nat := size (id_to_string v).

(** [Vocabulary.add_new_word]: both right-hand sides are evaluated before the
    store they feed. *)
Definition add_new_word (v : Vocabulary) (s : string) : Vocabulary :=
  let s2i := <[s := size (string_to_id v)]> (string_to_id v) in
  let i2s := <[size (id_to_string v) := s]> (id_to_string v) in
  {| id_to_string := i2s; string_to_id := s2i;
     pad_id := pad_id v; unk_id := unk_id v |}.

(** [Vocabulary.get_idx]: the value returned and the vocabulary after the
    call. *)
Definition get_idx (v : Vocabulary) (s : string) (extend_vocab : bool)
  : result (nat * Vocabulary) :=
  if decide (is_Some (string_to_id v !! s)) then
    i ← getitem (string_to_id v) s; Ok (i, v)
  else if extend_vocab then
    let v' := add_new_word v s in
    i ← getitem (string_to_id v') s; Ok (i, v')
  else Ok (unk_id v, v).

(** *** class TextData *)

(** The inner loop of [text_to_data]: one [get_idx] per token, appended to
    [full_text]. *)
Fixpoint encode_tokens (v : Vocabulary) (extend_vocab : bool)
    (tokens : list string) (full_text : list nat)
  : result (list nat * Vocabulary) :=
  match tokens with
  | [] => Ok (full_text, v)
  | token :: rest =>
      '(i, v') ← get_idx v token extend_vocab;
      encode_tokens v' extend_vocab rest (full_text ++ [i])
  end.

(** The outer loop of [text_to_data] over the lines of the file. *)
Fixpoint encode_lines (v : Vocabulary) (extend_vocab : bool)
    (lines : list string) (full_text : list nat)
  : result (list nat * Vocabulary) :=
  match lines with
  | [] => Ok (full_text, v)
  | line :: rest =>
      '(full_text', v') ← encode_tokens v extend_vocab (chars line) full_text;
      encode_lines v' extend_vocab rest full_text'
  end.

(** [TextData.text_to_data]: [file] is [None] when the path does not exist,
    otherwise the lines that [open] and the file iterator yield.  A file
    that [open] or the decoder rejects, and a device that rejects the
    tensor, are outside this model: what is stated of [Some lines] is stated
    of a file that was read. *)
Definition text_to_data (file : option (list string)) (vocab : option Vocabulary)
    (extend_vocab : bool) : result (list nat * Vocabulary) :=
  _ ← py_assert (bool_decide (is_Some file));
  let vocab := default Vocabulary_default vocab in
  encode_lines vocab extend_vocab (default [] file) [].

(** [''.join(vocab.id_to_string[i] for i in ids)], the way [complete] turns
    IDs back into text. *)
Definition ids_to_text (v : Vocabulary) (ids : list nat) : result string :=
  join <$> mapM (getitem (id_to_string v)) ids.

(** *** Tensors of token IDs *)

(** A 2-D integer tensor: shape [(length rows, ncols)], every row of length
    [ncols]. *)
Record Tensor2 := mkTensor2 {
  ncols : nat;
  rows : list (list nat)
}.

Definition shape0 (x : Tensor2) : nat := length (rows x).

(** [tensor.new_full((n,), fill)], for a fill value that the tensor's
    type (int64) holds. *)
Definition new_full (n fill : nat) : list nat := replicate n fill.

(** [tensor.new_full((r, c), fill)] *)
Definition new_full2 (r c fill : nat) : Tensor2 :=
  {| ncols := c; rows := replicate r (replicate c fill) |}.

(** [x.view(r, c)] on a 1-D tensor. *)
Definition view (r c : nat) (x : list nat) : result Tensor2 :=
  if decide (r * c = length x)
  then Ok {| ncols := c; rows := (λ i, take c (drop (i * c) x)) <$> seq 0 r |}
  else Raise RuntimeError.

Fixpoint transpose (n : nat) (m : list (list nat)) : list (list nat) :=
  match m with
  | [] => replicate n []
  | row :: m' => zip_with cons row (transpose n m')
  end.

(** [x.t()] *)
Definition t (x : Tensor2) : Tensor2 :=
  {| ncols := shape0 x; rows := transpose (ncols x) (rows x) |}.

(** [x[a:b]] along dimension 0. *)
Definition slice_rows (a b : nat) (x : Tensor2) : Tensor2 :=
  {| ncols := ncols x; rows := slice a b (rows x) |}.

(** [torch.cat([x, y], dim=0)] *)
Definition cat0 (x y : Tensor2) : result Tensor2 :=
  if decide (ncols x = ncols y)
  then Ok {| ncols := ncols x; rows := rows x ++ rows y |}
  else Raise RuntimeError.

(** *** class DataBatches *)

(** The locals of [create_batch] when it returns. [padded] is assigned twice
    in the source: [padded_flat] is its value before the [view], [padded]
    its value after. *)
Record create_batch_locals := mkLocals {
  text_len : nat;
  segment_len : nat;
  padded_flat : list nat;
  padded : Tensor2;
  num_batches : nat;
  batches : list Tensor2
}.

(** One iteration of the loop of [create_batch]: the batch appended for [i]. *)
Definition batch_at (padded : Tensor2) (bsz bptt_len pad_id i : nat)
  : result Tensor2 :=
  if decide (i = 0) then
    cat0 (new_full2 1 bsz pad_id)
         (slice_rows (i * bptt_len) ((i + 1) * bptt_len) padded)
  else Ok (slice_rows (i * bptt_len - 1) ((i + 1) * bptt_len) padded).

Definition create_batch_body (input_data : list nat) (bsz bptt_len pad_id : nat)
  : result create_batch_locals :=
  let text_len := length input_data in
  q ← floordiv text_len bsz;
  let segment_len := q + 1 in
  let padded0 := new_full (segment_len * bsz) pad_id in
  padded_flat ← setslice_prefix padded0 text_len input_data;
  v ← view bsz segment_len padded_flat;
  let padded := t v in
  q' ← floordiv segment_len bptt_len;
  let num_batches := q' + 1 in
  batches ← mapM (batch_at padded bsz bptt_len pad_id) (seq 0 num_batches);
  Ok (mkLocals text_len segment_len padded_flat padded num_batches batches).

(** [DataBatches.create_batch] *)
Definition create_batch (input_data : list nat) (bsz bptt_len pad_id : nat)
  : result (list Tensor2) :=
  batches <$> create_batch_body input_data bsz bptt_len pad_id.

(** *** class LSTMModel

    A recurrent state tensor has shape [(layers, lanes, hidden)]; the lanes
    never interact, so it is kept as one entry per lane ([H] for the hidden
    tensor, [C] for the cell tensor): [shape[1]] is the length of the list
    and [state[:, :n, :]] is [take n].  The embedding, the LSTM layers and
    the output projection together are the function [cell] of one lane and
    one time step; [Logits] is a row of class scores. *)

Section Model.
Context (H C Logits Rng : Type).

Record LSTMModel := mkLSTM {
  num_classes : nat;
  h0 : H;
  c0 : C;
  cell : nat → H * C → Logits * (H * C)
}.

Definition State : Type := list H * list C.

(** [LSTMModel.init_hidden] *)
Definition init_hidden (m : LSTMModel) (bsz : nat) : State :=
  (replicate bsz (h0 m), replicate bsz (c0 m)).

(** [custom_detach]: the values are kept. *)
Definition custom_detach (h : list H) (c : list C) : State := (h, c).

Definition forward_row (m : LSTMModel) (row : list nat) (st : State)
  : list Logits * State :=
  let outs := zip_with (cell m) row (zip (fst st) (snd st)) in
  (fst <$> outs, ((λ o, fst (snd o)) <$> outs, (λ o, snd (snd o)) <$> outs)).

Fixpoint forward_rows (m : LSTMModel) (rs : list (list nat)) (st : State)
  : list Logits * State :=
  match rs with
  | [] => ([], st)
  | row :: rest =>
      let '(o, st') := forward_row m row st in
      let '(os, st'') := forward_rows m rest st' in
      (o ++ os, st'')
  end.

(** [LSTMModel.forward]: the embedding rejects an ID outside
    [range(num_classes)], the LSTM rejects an empty sequence and a state
    whose lane count differs from the input's.  The output has one row of
    logits per cell of the input, time-major. *)
Definition forward (m : LSTMModel) (input : Tensor2) (st : State)
  : result (list Logits * State) :=
  if negb (bool_decide (Forall (Forall (λ i, i < num_classes m)) (rows input)))
  then Raise IndexError
  else if bool_decide (shape0 input = 0) then Raise RuntimeError
  else if negb (bool_decide (length (fst st) = ncols input
                             ∧ length (snd st) = ncols input))
  then Raise RuntimeError
  else Ok (forward_rows m (rows input) st).

(** *** complete *)

(** [topk1 row]: the index that [torch.topk(F.softmax(row), k=1)] returns;
    [multinomial g row]: the index that [torch.multinomial] draws and the
    generator state after the draw. *)
Context (topk1 : Logits → nat) (multinomial : Rng → Logits → nat * Rng).

(** What the variable [x] of [complete] holds: a tensor, or the Python
    [int] that [.item()] returns. *)
Inductive pyinput :=
| XTensor (x : Tensor2)
| XInt (n : nat).

(** [model(x, state)] *)
Definition model_call (m : LSTMModel) (x : pyinput) (st : State)
  : result (list Logits * State) :=
  match x with
  | XTensor x => forward m x st
  | XInt _ => Raise TypeError
  end.

(** [logits[-1]] *)
Definition last_item {A} (l : list A) : result A :=
  match last l with
  | Some a => Ok a
  | None => Raise IndexError
  end.

(** [int(ix)] of an index computed from [logits]: one row only. *)
Definition single_item {A} (l : list A) : result A :=
  match l with
  | [a] => Ok a
  | _ => Raise RuntimeError
  end.

Definition scalar_tensor (ix : nat) : Tensor2 := {| ncols := 1; rows := [[ix]] |}.

(** The decoding loop [for k in range(steps)]. *)
Fixpoint decode_loop (m : LSTMModel) (vocab : Vocabulary) (sample : bool)
    (steps : nat) (x : pyinput) (st : State) (g : Rng)
    (out_list : list string) : result (list string) :=
  match steps with
  | 0 => Ok out_list
  | S k =>
      '(logits, st') ← model_call m x st;
      row ← single_item logits;
      if sample then
        let '(ix, g') := multinomial g row in
        tok ← getitem (id_to_string vocab) ix;
        decode_loop m vocab sample k (XInt ix) st' g' (out_list ++ [tok])
      else
        let ix := topk1 row in
        tok ← getitem (id_to_string vocab) ix;
        decode_loop m vocab sample k (XTensor (scalar_tensor ix)) st' g
                    (out_list ++ [tok])
  end.

(** The list [out_list] that [complete] joins.  [vocab] is the global
    [my_data.vocab], [g] the state of the random generator. *)
Definition complete_tokens (m : LSTMModel) (vocab : Vocabulary)
    (prompt : string) (steps : nat) (sample : bool) (g : Rng)
  : result (list string) :=
  prompt_list ← mapM (getitem (string_to_id vocab)) (chars prompt);
  let x := {| ncols := 1; rows := (λ i, [i]) <$> prompt_list |} in
  let st := init_hidden m 1 in
  '(logits, st) ← forward m x st;
  row ← last_item logits;
  let '(ix, g) := if sample then multinomial g row else (topk1 row, g) in
  tok ← getitem (id_to_string vocab) ix;
  decode_loop m vocab sample steps (XTensor (scalar_tensor ix)) st g [tok].

(** [complete(model, prompt, steps, sample)] *)
Definition complete (m : LSTMModel) (vocab : Vocabulary)
    (prompt : string) (steps : nat) (sample : bool) (g : Rng)
  : result string :=
  join <$> complete_tokens m vocab prompt steps sample g.

(** *** Training loop *)

(** The values bound to the names of the script that the loop body reads
    and writes. *)
Inductive pyval :=
| VHidden (h : list H)
| VCell (c : list C).

(** Reading a global name. *)
Definition load_name (ns : gmap string pyval) (x : string) : result pyval :=
  match ns !! x with
  | Some v => Ok v
  | None => Raise NameError
  end.

Definition as_hidden (v : pyval) : result (list H) :=
  match v with VHidden h => Ok h | _ => Raise TypeError end.
Definition as_cell (v : pyval) : result (list C) :=
  match v with VCell c => Ok c | _ => Raise TypeError end.

(** [v[:, :n, :]] *)
Definition narrow (v : pyval) (n : nat) : pyval :=
  match v with
  | VHidden h => VHidden (take n h)
  | VCell c => VCell (take n c)
  end.

(** [batches[idx]] *)
Definition list_getitem {A} (l : list A) (i : nat) : result A :=
  match l !! i with
  | Some a => Ok a
  | None => Raise IndexError
  end.

(** The constants of the script that the loop body reads. *)
Definition report_every : nat := 30.
Definition prompt : string := "Dogs like best to".

(** [loss_fn(output, target)] with [nn.CrossEntropyLoss(ignore_index=0)]:
    every target other than the ignored index is a class of the model.
    ([output] has one row per cell of [input] and [target] one entry per
    cell of [batch[1:]], the same count.) *)
Definition cross_entropy_check (m : LSTMModel) (target : list nat) : result unit :=
  if bool_decide (Forall (λ i, i = 0 ∨ i < num_classes m) target)
  then Ok tt else Raise IndexError.

(** Backward pass, gradient clipping and [optimizer.step()]: the model with
    its parameters updated. *)
Context (optimizer_step : LSTMModel → list Logits → list nat → LSTMModel).

(** One iteration of the inner training loop, the whole body of
    [for idx in range(len(batches))].  [vocab] is the global
    [my_data.vocab] and [g] the state of the random generator when the
    report samples.  The perplexity appended to [pplxty] and the printed
    lines are not part of the result. *)
Definition train_step (batches : list Tensor2) (m : LSTMModel)
    (vocab : Vocabulary) (g : Rng)
    (ns : gmap string pyval) (idx : nat)
  : result (LSTMModel * gmap string pyval) :=
  batch ← list_getitem batches idx;
  state_h ← load_name ns "state_h" ≫= as_hidden;
  state_c ← load_name ns "state_c" ≫= as_cell;
  let '(state_h, state_c) := custom_detach state_h state_c in
  let input := slice_rows 0 (shape0 batch - 1) batch in
  let target := concat (rows (slice_rows 1 (shape0 batch) batch)) in
  let bsz := ncols input in
  let prev_bsz := length state_h in
  ns ← (if decide (bsz ≠ prev_bsz) then
          state ← load_name ns "state";
          Ok (<["state" := narrow state bsz]> ns)
        else Ok ns);
  '(output, (state_h, state_c)) ← forward m input (state_h, state_c);
  let ns := <["state_c" := VCell state_c]> (<["state_h" := VHidden state_h]> ns) in
  _ ← cross_entropy_check m target;
  let m := optimizer_step m output target in
  if decide (idx `mod` report_every = 0) then
    generated_text ← complete m vocab prompt 128 true g;
    Ok (m, ns)
  else Ok (m, ns).

(** The names bound when an epoch starts:
    [state_h, state_c = model.init_hidden(batch_size)]. *)
Definition epoch_start (m : LSTMModel) (batch_size : nat)
    (ns : gmap string pyval) : gmap string pyval :=
  let '(h, c) := init_hidden m batch_size in
  <["state_c" := VCell c]> (<["state_h" := VHidden h]> ns).

End Model.

Arguments mkLSTM {H C Logits}.
Arguments num_classes {H C Logits}.
Arguments init_hidden {H C Logits}.
Arguments forward {H C Logits}.
Arguments forward_rows {H C Logits}.
Arguments forward_row {H C Logits}.
Arguments decode_loop {H C Logits Rng}.
Arguments complete_tokens {H C Logits Rng}.
Arguments complete {H C Logits Rng}.
Arguments train_step {H C Logits Rng}.
Arguments cross_entropy_check {H C Logits}.
Arguments epoch_start {H C Logits}.
Arguments VHidden {H C}.
Arguments cell {H C Logits}.
Arguments h0 {H C Logits}.
Arguments c0 {H C Logits}.
Arguments model_call {H C Logits}.
Arguments narrow {H C}.
Arguments load_name {H C}.
Arguments as_hidden {H C}.
Arguments as_cell {H C}.
Arguments custom_detach {H C}.
Arguments VCell {H C}.

End RNN.

(** ** src/Transformermodel.py *)

Module Transformer.

(** *** class Vocabulary *)

Record Vocabulary := mkVocabulary {
  id_to_string : gmap nat string;
  string_to_id : gmap string nat;
  pad_id : nat;
  unk_id : nat;
  eos_id : nat;
  sos_id : nat
}.

(** [Vocabulary.__init__(pad_token, unk_token, eos_token, sos_token)] *)
Definition Vocabulary_init (pad_token unk_token eos_token sos_token : string)
  : Vocabulary :=
  let i2s := <[0 := pad_token]> (∅ : gmap nat string) in
  let s2i := <[pad_token := 0]> (∅ : gmap string nat) in
  let i2s := <[1 := unk_token]> i2s in
  let s2i := <[unk_token := 1]> s2i in
  let i2s := <[2 := eos_token]> i2s in
  let s2i := <[eos_token := 2]> s2i in
  let i2s := <[3 := sos_token]> i2s in
  let s2i := <[sos_token := 3]> s2i in
  {| id_to_string := i2s; string_to_id := s2i;
     pad_id := 0; unk_id := 1; eos_id := 2; sos_id := 3 |}.

Definition Vocabulary_default : Vocabulary :=
  Vocabulary_init "<pad>" "<unk>" "<eos>" "<sos>".

(** [Vocabulary.add_new_word] *)
Definition add_new_word (v : Vocabulary) (s : string) : Vocabulary :=
  let s2i := <[s := size (string_to_id v)]> (string_to_id v) in
  let i2s := <[size (id_to_string v) := s]> (id_to_string v) in
  {| id_to_string := i2s; string_to_id := s2i;
     pad_id := pad_id v; unk_id := unk_id v;
     eos_id := eos_id v; sos_id := sos_id v |}.

(** [Vocabulary.get_idx] *)
Definition get_idx (v : Vocabulary) (s : string) (extend_vocab : bool)
  : result (nat * Vocabulary) :=
  if decide (is_Some (string_to_id v !! s)) then
    i ← getitem (string_to_id v) s; Ok (i, v)
  else if extend_vocab then
    let v' := add_new_word v s in
    i ← getitem (string_to_id v') s; Ok (i, v')
  else Ok (unk_id v, v).

(** *** class ParallelTextDataset *)

(** The two length-statistics loops: the largest [len(list(line))]. *)
Definition max_line_length (lines : list string) : nat :=
  foldl (λ mx line,
           let length := length (chars line) in
           if decide (mx < length) then length else mx) 0 lines.

(** [for token in tokens: seq.append(vocab.get_idx(token, extend_vocab))] *)
Fixpoint encode_tokens (v : Vocabulary) (extend_vocab : bool)
    (tokens : list string) (seq : list nat) : result (list nat * Vocabulary) :=
  match tokens with
  | [] => Ok (seq, v)
  | token :: rest =>
      '(i, v') ← get_idx v token extend_vocab;
      encode_tokens v' extend_vocab rest (seq ++ [i])
  end.

(** [new_seq = var_seq.data.new(n).fill_(pad); new_seq[:var_len] = var_seq] *)
Definition pad_to (n pad : nat) (seq : list nat) : result (list nat) :=
  setslice_prefix (replicate n pad) (length seq) seq.

(** The loop that fills [src_list]. *)
Fixpoint load_src (v : Vocabulary) (extend_vocab : bool)
    (src_max src_pad_idx : nat)
    (lines : list string) (src_list : list (list nat))
  : result (list (list nat) * Vocabulary) :=
  match lines with
  | [] => Ok (src_list, v)
  | line :: rest =>
      '(seq, v') ← encode_tokens v extend_vocab (chars line) [];
      new_seq ← pad_to src_max src_pad_idx seq;
      load_src v' extend_vocab src_max src_pad_idx rest (src_list ++ [new_seq])
  end.

(** The sequence built for one target line, before padding. *)
Definition encode_target (v : Vocabulary) (extend_vocab : bool)
    (tgt_sos_idx tgt_eos_idx : nat) (line : string)
  : result (list nat * Vocabulary) :=
  '(seq, v') ← encode_tokens v extend_vocab (chars line) [tgt_sos_idx];
  Ok (seq ++ [tgt_eos_idx], v').

(** The loop that fills [tgt_list]. *)
Fixpoint load_tgt (v : Vocabulary) (extend_vocab : bool)
    (tgt_max tgt_pad_idx tgt_sos_idx tgt_eos_idx : nat)
    (lines : list string) (tgt_list : list (list nat))
  : result (list (list nat) * Vocabulary) :=
  match lines with
  | [] => Ok (tgt_list, v)
  | line :: rest =>
      '(seq, v') ← encode_target v extend_vocab tgt_sos_idx tgt_eos_idx line;
      new_seq ← pad_to tgt_max tgt_pad_idx seq;
      load_tgt v' extend_vocab tgt_max tgt_pad_idx tgt_sos_idx tgt_eos_idx rest
               (tgt_list ++ [new_seq])
  end.

(** What [parallel_text_to_data] returns. *)
Record dataset := mkDataset {
  data_list : list (list nat * list nat);
  src_vocab : Vocabulary;
  tgt_vocab : Vocabulary;
  src_max : nat;
  tgt_max : nat
}.

(** [ParallelTextDataset.parallel_text_to_data].  A file is [None] when its
    path does not exist, otherwise the lines that [open] and its iterator
    yield; a file that [open] or the decoder rejects, and a device that
    rejects a tensor, are outside this model.  The two vocabularies are
    distinct objects, as at both call sites of the script. *)
Definition parallel_text_to_data (src_file tgt_file : option (list string))
    (src_vocab tgt_vocab : option Vocabulary) (extend_vocab : bool)
  : result dataset :=
  _ ← py_assert (bool_decide (is_Some src_file));
  _ ← py_assert (bool_decide (is_Some tgt_file));
  let src_lines := default [] src_file in
  let tgt_lines := default [] tgt_file in
  let src_vocab := default Vocabulary_default src_vocab in
  let tgt_vocab := default Vocabulary_default tgt_vocab in
  let src_max := max_line_length src_lines in
  let tgt_max := max_line_length tgt_lines in
  let tgt_max := tgt_max + 2 in
  let src_pad_idx := pad_id src_vocab in
  let tgt_pad_idx := pad_id tgt_vocab in
  let tgt_eos_idx := eos_id tgt_vocab in
  let tgt_sos_idx := sos_id tgt_vocab in
  '(src_list, src_vocab) ←
    load_src src_vocab extend_vocab src_max src_pad_idx src_lines [];
  '(tgt_list, tgt_vocab) ←
    load_tgt tgt_vocab extend_vocab tgt_max tgt_pad_idx tgt_sos_idx tgt_eos_idx
             tgt_lines [];
  _ ← py_assert (bool_decide (length src_list = length tgt_list));
  Ok (mkDataset (zip src_list tgt_list) src_vocab tgt_vocab src_max tgt_max).

(** *** class TransformerModel: padding masks *)

(** [TransformerModel.create_src_padding_mask]: [src.transpose(0, 1) == 0],
    for [src] of shape (time, batch).  The comparison is with the literal 0,
    not with [self.pad_id]. *)
Definition create_src_padding_mask (src : RNN.Tensor2) : list (list bool) :=
  (λ row : list nat, (λ x, bool_decide (x = 0)) <$> row) <$> RNN.rows (RNN.t src).

(** [TransformerModel.create_tgt_padding_mask] *)
Definition create_tgt_padding_mask (tgt : RNN.Tensor2) : list (list bool) :=
  (λ row : list nat, (λ x, bool_decide (x = 0)) <$> row) <$> RNN.rows (RNN.t tgt).

(** [x.transpose(0, 1)] on a 2-D tensor, as the training loop applies it to
    a batch of shape (batch, time) before calling the model. *)
Definition transpose01 (x : RNN.Tensor2) : RNN.Tensor2 := RNN.t x.

(** *** compute_accuracy *)

(** A dense tensor of any rank: its shape and its elements in row-major
    order. *)
Record Tensor (A : Type) := mkTensor {
  shape : list nat;
  data : list A
}.
Arguments mkTensor {A}.
Arguments shape {A}.
Arguments data {A}.

Definition numel (sh : list nat) : nat := foldr Nat.mul 1 sh.

(** [x.shape[0]] *)
Definition shape0 {A} (x : Tensor A) : result nat :=
  match shape x with
  | [] => Raise IndexError
  | n :: _ => Ok n
  end.

(** [x[i]] for [0 <= i] *)
Definition index0 {A} (x : Tensor A) (i : nat) : result (Tensor A) :=
  match shape x with
  | [] => Raise IndexError
  | n :: sh =>
      if decide (i < n)
      then Ok (mkTensor sh (take (numel sh) (drop (i * numel sh) (data x))))
      else Raise IndexError
  end.

(** Broadcasting of two shapes, innermost dimension first. *)
Fixpoint broadcast_rev (a b : list nat) : option (list nat) :=
  match a, b with
  | [], _ => Some b
  | _, [] => Some a
  | x :: a', y :: b' =>
      rest ← broadcast_rev a' b';
      if decide (x = y) then Some (x :: rest)
      else if decide (x = 1) then Some (y :: rest)
      else if decide (y = 1) then Some (x :: rest)
      else None
  end.

Definition broadcast_shapes (a b : list nat) : option (list nat) :=
  reverse <$> broadcast_rev (reverse a) (reverse b).

(** The index, innermost dimension first, of the [k]-th element of a tensor
    whose reversed shape is [sh]. *)
Fixpoint unravel_rev (sh : list nat) (k : nat) : list nat :=
  match sh with
  | [] => []
  | n :: r => k `mod` n :: unravel_rev r (k `div` n)
  end.

(** The offset in a tensor of reversed shape [sh] of the element that the
    broadcast index [idx] reads: a dimension of size 1 is repeated. *)
Fixpoint offset_rev (sh idx : list nat) (stride : nat) : nat :=
  match sh, idx with
  | n :: r, i :: ir =>
      (if decide (n = 1) then 0 else i * stride) + offset_rev r ir (stride * n)
  | _, _ => 0
  end.

Definition broadcast_get {A} (x : Tensor A) (out : list nat) (k : nat) : option A :=
  data x !! offset_rev (reverse (shape x)) (unravel_rev (reverse out) k) 1.

(** Python objects that the condition of [compute_accuracy] can hold. *)
Inductive pyobject :=
| BoundMethod (self : Tensor bool) (name : string)
| PyBool (b : bool).

(** The truth value of an object in an [if]. *)
Definition truthy (o : pyobject) : bool :=
  match o with
  | BoundMethod _ _ => true
  | PyBool b => b
  end.

(** [x.all]: the attribute, not a call. *)
Definition attr_all (x : Tensor bool) : pyobject := BoundMethod x "all".

(** [x.all()]: what calling the method would return. *)
Definition call_all (x : Tensor bool) : pyobject := PyBool (forallb id (data x)).

(** [a / b] on integers: true division. *)
Definition true_div (a b : nat) : result Q :=
  if decide (b = 0) then Raise ZeroDivisionError
  else Ok (Qmake (Z.of_nat a) (Pos.of_nat b)).

Section Accuracy.
Context {A B : Type} (eqb : A → B → bool).

(** [x == y] on tensors, with broadcasting. *)
Definition tensor_eq (x : Tensor A) (y : Tensor B) : result (Tensor bool) :=
  match broadcast_shapes (shape x) (shape y) with
  | None => Raise RuntimeError
  | Some out =>
      Ok (mkTensor out
            ((λ k, match broadcast_get x out k, broadcast_get y out k with
                   | Some a, Some b => eqb a b
                   | _, _ => false
                   end) <$> seq 0 (numel out)))
  end.

(** The loop [for i in range(total)]. *)
Fixpoint count_correct (preds : Tensor A) (tgt_ : Tensor B)
    (range : list nat) (correct : nat) : result nat :=
  match range with
  | [] => Ok correct
  | i :: rest =>
      p ← index0 preds i;
      g ← index0 tgt_ i;
      e ← tensor_eq p g;
      let correct := if truthy (attr_all e) then correct + 1 else correct in
      count_correct preds tgt_ rest correct
  end.

(** [compute_accuracy(preds, tgt_)] *)
Definition compute_accuracy (preds : Tensor A) (tgt_ : Tensor B) : result Q :=
  let correct := 0 in
  total ← shape0 tgt_;
  correct ← count_correct preds tgt_ (seq 0 total) correct;
  true_div correct total.

End Accuracy.

(** *** Training and validation loops

    The dense computations are parameters: [P] the model's parameters, [G]
    their gradients, [Opt] the state of the Adam optimizer, [R] floating
    point numbers, [Rng] the state of the random generator that dropout
    draws from in training mode.  A batch is the pair [(src, tgt)] of
    (batch, time) tensors that a [DataLoader] yields. *)

(** [a % b] on non-negative integers. *)
Definition py_mod (a b : nat) : result nat :=
  if decide (b = 0) then Raise ZeroDivisionError else Ok (a `mod` b).

Section Loops.
Context {P G Opt R Rng : Type}.

Record Backend := mkBackend {
  (** [model(src.transpose(0,1), tgt.transpose(0,1)).permute(1,2,0)] after
      [model.train()]: the output and the generator state after it. *)
  model_train : P → Rng → Tensor nat → Tensor nat → result (Tensor R * Rng);
  (** The same after [model.eval()], under [torch.no_grad()]. *)
  model_eval : P → Tensor nat → Tensor nat → result (Tensor R);
  (** [loss_fn(output, tgt)] and [.item()] *)
  loss_fn : Tensor R → Tensor nat → result R;
  (** What [loss.backward()] adds to the parameters' [.grad] for the
      forward pass made with these parameters, generator state and batch. *)
  gradient : P → Rng → Tensor nat → Tensor nat → G;
  grad_add : G → G → G;
  (** [torch.nn.utils.clip_grad_norm_(model.parameters(), 0.1)] *)
  clip_grad_norm : G → G;
  (** [optimizer.step()] with the gradients given. *)
  adam_step : P * Opt → G → P * Opt;
  fzero : R;
  fadd : R → R → R;
  (** One element of [preds[i] == tgt_[i]]. *)
  eq_elem : R → nat → bool
}.

(** The variables of the script that the loops read and write; [i], [src]
    and [tgt] are unbound until a loop binds them. *)
Record loop_state := mkLoopState {
  params : P;
  opt_state : Opt;
  grads : option G;
  rng : Rng;
  train_loss : R;
  valid_loss : R;
  train_acc : Q;
  val_acc : Q;
  tloss : list R;
  tacc : list Q;
  vloss : list R;
  vacc : list Q;
  var_i : option nat;
  var_batch : option (Tensor nat * Tensor nat)
}.

(** Reading a variable. *)
Definition load_var {X} (x : option X) : result X :=
  match x with
  | Some v => Ok v
  | None => Raise NameError
  end.

(** [loss.backward()]: gradients accumulate into [.grad]; after
    [zero_grad()] there is nothing to add to. *)
Definition backward (bk : Backend) (old : option G) (g : G) : G :=
  match old with
  | None => g
  | Some g0 => grad_add bk g0 g
  end.

(** The body of [for i, (src, tgt) in enumerate(train_data_loader)]. *)
Definition train_iteration (bk : Backend) (accumulation_steps n : nat)
    (st : loop_state) (i : nat) (batch : Tensor nat * Tensor nat)
  : result loop_state :=
  let '(src, tgt) := batch in
  let grads0 : option G := None in
  '(output, rng') ← model_train bk (params st) (rng st) src tgt;
  loss ← loss_fn bk output tgt;
  let train_loss' := fadd bk (train_loss st) loss in
  let g := backward bk grads0 (gradient bk (params st) (rng st) src tgt) in
  let g := clip_grad_norm bk g in
  r ← py_mod (i + 1) accumulation_steps;
  let '(params', opt') :=
    if decide (r = 0) then adam_step bk (params st, opt_state st) g
    else (params st, opt_state st) in
  r' ← py_mod i n;
  if decide (r' = 0) then
    acc ← compute_accuracy (eq_elem bk) output tgt;
    Ok {| params := params'; opt_state := opt'; grads := Some g; rng := rng';
          train_loss := fzero bk; valid_loss := valid_loss st;
          train_acc := 0%Q; val_acc := val_acc st;
          tloss := tloss st ++ [train_loss']; tacc := tacc st ++ [acc];
          vloss := vloss st; vacc := vacc st;
          var_i := Some i; var_batch := Some (src, tgt) |}
  else
    Ok {| params := params'; opt_state := opt'; grads := Some g; rng := rng';
          train_loss := train_loss'; valid_loss := valid_loss st;
          train_acc := train_acc st; val_acc := val_acc st;
          tloss := tloss st; tacc := tacc st;
          vloss := vloss st; vacc := vacc st;
          var_i := Some i; var_batch := Some (src, tgt) |}.

(** The training loop, from index [i] on. *)
Fixpoint train_loop (bk : Backend) (accumulation_steps n : nat)
    (st : loop_state) (i : nat) (loader : list (Tensor nat * Tensor nat))
  : result loop_state :=
  match loader with
  | [] => Ok st
  | batch :: rest =>
      st' ← train_iteration bk accumulation_steps n st i batch;
      train_loop bk accumulation_steps n st' (S i) rest
  end.

(** The body of [for i, (valsrc, valtgt) in enumerate(valid_data_loader)]:
    the batch the loader yields is bound to [valsrc, valtgt] and at once
    overwritten from [src, tgt]. *)
Definition valid_iteration (bk : Backend) (st : loop_state) (i : nat)
    (batch : Tensor nat * Tensor nat) : result loop_state :=
  '(src, tgt) ← load_var (var_batch st);
  let '(valsrc, valtgt) := (src, tgt) in
  output ← model_eval bk (params st) valsrc valtgt;
  loss ← loss_fn bk output tgt;
  acc ← compute_accuracy (eq_elem bk) output valtgt;
  Ok {| params := params st; opt_state := opt_state st; grads := grads st;
        rng := rng st;
        train_loss := train_loss st; valid_loss := fadd bk (valid_loss st) loss;
        train_acc := train_acc st; val_acc := (val_acc st + acc)%Q;
        tloss := tloss st; tacc := tacc st; vloss := vloss st; vacc := vacc st;
        var_i := Some i; var_batch := var_batch st |}.

Fixpoint valid_loop (bk : Backend) (st : loop_state) (i : nat)
    (loader : list (Tensor nat * Tensor nat)) : result loop_state :=
  match loader with
  | [] => Ok st
  | batch :: rest =>
      st' ← valid_iteration bk st i batch;
      valid_loop bk st' (S i) rest
  end.

(** One pass of [for epoch in range(num_epochs)]: the four resets (kept as
    [epoch_resets]), the
    training loop, the validation loop, the report (whose divisions by [i]
    are evaluated for printing) and the two appends. *)
Definition epoch_resets (bk : Backend) (st : loop_state) : loop_state :=
  {| params := params st; opt_state := opt_state st;
     grads := grads st; rng := rng st;
     train_loss := fzero bk; valid_loss := fzero bk;
     train_acc := 0%Q; val_acc := 0%Q;
     tloss := tloss st; tacc := tacc st;
     vloss := vloss st; vacc := vacc st;
     var_i := var_i st; var_batch := var_batch st |}.

Definition run_epoch (bk : Backend) (accumulation_steps n : nat)
    (st : loop_state) (train_loader valid_loader : list (Tensor nat * Tensor nat))
  : result loop_state :=
  let st := epoch_resets bk st in
  st ← train_loop bk accumulation_steps n st 0 train_loader;
  st ← valid_loop bk st 0 valid_loader;
  i ← load_var (var_i st);
  _ ← (if decide (i = 0) then Raise ZeroDivisionError else Ok tt);
  Ok {| params := params st; opt_state := opt_state st;
        grads := grads st; rng := rng st;
        train_loss := train_loss st; valid_loss := valid_loss st;
        train_acc := train_acc st; val_acc := val_acc st;
        tloss := tloss st; tacc := tacc st;
        vloss := vloss st ++ [valid_loss st]; vacc := vacc st ++ [val_acc st];
        var_i := var_i st; var_batch := var_batch st |}.

End Loops.

Arguments Backend : clear implicits.
Arguments loop_state : clear implicits.

End Transformer.

(** ** Notions used to state the properties *)

(** The two dictionaries of a vocabulary agree: every string's ID maps back
    to the string, both have the same size, and the IDs in use lie below
    that size. *)
Record consistent (v : RNN.Vocabulary) : Prop := mkConsistent {
  cons_back : ∀ s i,
    RNN.string_to_id v !! s = Some i → RNN.id_to_string v !! i = Some s;
  cons_size : size (RNN.string_to_id v) = size (RNN.id_to_string v);
  cons_dense : ∀ i,
    is_Some (RNN.id_to_string v !! i) → i < size (RNN.id_to_string v)
}.

(** [ceil(a / b)] as the specification writes it. *)
Definition ceil_div (a b : nat) : nat := (a + b - 1) / b.

(** The rows of the window that [create_batch] appends for [i], given the
    rows [p] of the padded grid. *)
Definition window_rows (p : list (list nat)) (bsz bptt_len pad_id i : nat)
  : list (list nat) :=
  if decide (i = 0) then replicate bsz pad_id :: slice 0 bptt_len p
  else slice (i * bptt_len - 1) ((i + 1) * bptt_len) p.

(** Cell [(t, b)] of a 2-D tensor. *)
Definition cell_at (x : RNN.Tensor2) (t b : nat) : option nat :=
  RNN.rows x !! t ≫= (.!! b).

(** The padded (time, lane) grid of a flat sequence, written from the
    sequence alone: [bsz] lanes of [seg = L // bsz + 1] steps each, lane [b]
    holding the elements [b * seg .. b * seg + seg - 1] of the sequence and
    the pad ID past its end.  Row [t] is time step [t] of every lane. *)
Definition padded_grid (data : list nat) (bsz pad_id : nat) : list (list nat) :=
  let seg := length data / bsz + 1 in
  (λ t, (λ b, default pad_id (data !! (b * seg + t))) <$> seq 0 bsz) <$> seq 0 seg.


(** The batcher's arithmetic as the specification states it (claim C1):
    [segment_len = ceil(L / B)], [B * ceil(L / B)] padded cells and
    [ceil(segment_len / W)] windows. *)
Definition batcher_uses_ceilings (data : list nat) (bsz bptt_len pad_id : nat)
  : Prop :=
  ∃ loc, RNN.create_batch_body data bsz bptt_len pad_id = Ok loc
    ∧ RNN.segment_len loc = ceil_div (length data) bsz
    ∧ length (RNN.padded_flat loc) = bsz * ceil_div (length data) bsz
    ∧ length (RNN.batches loc) = ceil_div (RNN.segment_len loc) bptt_len.

(** The end-to-end scenario as the specification states it (claim C5). *)
Definition scenario_as_stated : Prop :=
  ∃ loc, RNN.create_batch_body [2; 3; 4; 3; 2; 4] 2 2 0 = Ok loc
    ∧ RNN.segment_len loc = 3
    ∧ (RNN.rows (RNN.padded loc) = [[2; 3; 2]; [3; 2; 4]; [4; 4; 0]]
       ∨ RNN.rows (RNN.t (RNN.padded loc)) = [[2; 3; 2]; [3; 2; 4]; [4; 4; 0]])
    ∧ ∃ b0, RNN.batches loc !! 0 = Some b0
            ∧ head (RNN.rows b0) = Some [0; 0].




(** A vocabulary that holds every character of the script's prompt, and a
    model without memory with one class per entry of it. *)
Definition prompt_vocab : RNN.Vocabulary :=
  foldl RNN.add_new_word RNN.Vocabulary_default (chars RNN.prompt).

Definition prompt_model : RNN.LSTMModel unit unit unit :=
  RNN.mkLSTM (RNN.len prompt_vocab) tt tt (λ _ _, (tt, (tt, tt))).

(** The decoder's result as the specification states it (claim C10): for a
    prompt whose characters are all in the vocabulary, greedy decoding
    returns a string of exactly [steps + 1] characters. *)
Definition complete_yields_chars {H C Logits Rng : Type}
    (topk1 : Logits → nat) (multinomial : Rng → Logits → nat * Rng)
    (m : RNN.LSTMModel H C Logits) (vocab : RNN.Vocabulary)
    (prompt : string) (steps : nat) (g : Rng) : Prop :=
  Forall (λ c, is_Some (RNN.string_to_id vocab !! c)) (chars prompt) →
  ∃ s, RNN.complete topk1 multinomial m vocab prompt steps false g = Ok s
       ∧ String.length s = steps + 1.

(** A vocabulary holding the single character [a] next to the reserved
    tokens, and a three-class model without memory whose arg-max is always
    class [k]. *)
Definition vocab_a : RNN.Vocabulary := RNN.add_new_word RNN.Vocabulary_default "a".

Definition constant_model : RNN.LSTMModel unit unit unit :=
  RNN.mkLSTM 3 tt tt (λ _ _, (tt, (tt, tt))).

Definition constant_topk1 (k : nat) : unit → nat := λ _, k.

Definition no_sampler : unit → unit → nat * unit := λ g _, (0, g).


(** The ID that a token has in a vocabulary: its entry in [string_to_id], or
    the unknown ID. *)
Definition lookup_id (v : Transformer.Vocabulary) (s : string) : nat :=
  default (Transformer.unk_id v) (Transformer.string_to_id v !! s).

(** [v'] is [v] after some calls of [get_idx] with the flag [e]: entries are
    only added, the reserved IDs stay, and nothing changes without
    extension. *)
Definition grows_to (e : bool) (v v' : Transformer.Vocabulary) : Prop :=
  Transformer.string_to_id v ⊆ Transformer.string_to_id v'
  ∧ Transformer.pad_id v' = Transformer.pad_id v
  ∧ Transformer.unk_id v' = Transformer.unk_id v
  ∧ Transformer.eos_id v' = Transformer.eos_id v
  ∧ Transformer.sos_id v' = Transformer.sos_id v
  ∧ (e = false → v' = v).

(** A source line and a target line as ID sequences before padding, and
    padding to a length. *)
Definition source_example (v : Transformer.Vocabulary) (line : string) : list nat :=
  lookup_id v <$> chars line.

Definition target_example (v : Transformer.Vocabulary) (line : string) : list nat :=
  Transformer.sos_id v :: (lookup_id v <$> chars line) ++ [Transformer.eos_id v].

Definition padded_to (n pad : nat) (seq : list nat) : list nat :=
  seq ++ replicate (n - length seq) pad.


(** The accuracy as the specification states it (claim C9): 1.0 for every
    pair of tensors whose leading dimensions have the same size. *)
Definition accuracy_is_one {A B : Type} (eqb : A → B → bool)
    (preds : Transformer.Tensor A) (tgt_ : Transformer.Tensor B) : Prop :=
  (∃ n sp st, Transformer.shape preds = n :: sp
              ∧ Transformer.shape tgt_ = n :: st) →
  ∃ q, Transformer.compute_accuracy eqb preds tgt_ = Ok q ∧ Qeq q 1.


(** No character gets the ID 0: the unknown ID is not 0, the vocabulary is
    not empty (so the next free ID is not 0), and no one-character string
    is mapped to 0. *)
Definition zero_is_reserved (v : Transformer.Vocabulary) : Prop :=
  Transformer.unk_id v ≠ 0
  ∧ 0 < size (Transformer.string_to_id v)
  ∧ ∀ s, String.length s = 1 → Transformer.string_to_id v !! s ≠ Some 0.

(** A vocabulary whose data the padding masks read correctly: no character
    has the ID 0, the pad ID is 0, and neither marker is 0. *)
Definition mask_ready (v : Transformer.Vocabulary) : Prop :=
  zero_is_reserved v
  ∧ Transformer.pad_id v = 0
  ∧ Transformer.sos_id v ≠ 0
  ∧ Transformer.eos_id v ≠ 0.

(** A backend without numbers, to run the loops on: the parameters are a
    counter of optimizer steps, the output has one class per position of
    the target. *)
Definition scores_for (tgt : Transformer.Tensor nat) : Transformer.Tensor unit :=
  Transformer.mkTensor
    (match Transformer.shape tgt with
     | b :: rest => b :: 1 :: rest
     | [] => []
     end)
    (replicate (Transformer.numel (Transformer.shape tgt)) tt).

Definition counting_backend : Transformer.Backend nat unit unit unit unit :=
  Transformer.mkBackend
    (λ _ r _ tgt, Ok (scores_for tgt, r))
    (λ _ _ tgt, Ok (scores_for tgt))
    (λ _ _, Ok tt)
    (λ _ _ _ _, tt)
    (λ _ _, tt)
    (λ g, g)
    (λ po _, (S (fst po), snd po))
    tt
    (λ _ _, tt)
    (λ _ _, true).

Definition one_batch (x y : nat) : Transformer.Tensor nat * Transformer.Tensor nat :=
  (Transformer.mkTensor [1; 1] [x], Transformer.mkTensor [1; 1] [y]).

Definition initial_state : Transformer.loop_state nat unit unit unit unit :=
  Transformer.mkLoopState 0 tt None tt tt tt 0%Q 0%Q [] [] [] [] None None.

(** The model's output has the batch's examples first and its time steps
    last, as [permute(1, 2, 0)] leaves it. *)
Definition output_shaped {P G Opt R Rng : Type}
    (bk : Transformer.Backend P G Opt R Rng) : Prop :=
  (∀ p r src tgt out r' b t,
     Transformer.model_train bk p r src tgt = Ok (out, r') →
     Transformer.shape tgt = [b; t] →
     ∃ v, Transformer.shape out = [b; v; t])
  ∧ (∀ p src tgt out b t,
       Transformer.model_eval bk p src tgt = Ok out →
       Transformer.shape tgt = [b; t] →
       ∃ v, Transformer.shape out = [b; v; t]).

(** * Properties *)

(** ** Generic facts *)

Lemma join_chars (s : string) : join (chars s) = s.
Proof.
  induction s as [|a r IH]; [reflexivity|].
  cbn. unfold join in IH. by rewrite IH.
Qed.

Lemma length_chars (s : string) : length (chars s) = String.length s.
Proof. induction s as [|a r IH]; cbn; [reflexivity | by rewrite IH]. Qed.

Lemma string_length_append (s1 s2 : string) :
  String.length (String.append s1 s2) = String.length s1 + String.length s2.
Proof.
  induction s1 as [|a s1 IH]; [reflexivity|].
  change (S (String.length (String.append s1 s2))
          = S (String.length s1 + String.length s2)).
  by rewrite IH.
Qed.

Lemma getitem_Some `{Countable K} {V} (d : gmap K V) (k : K) (v : V) :
  d !! k = Some v → getitem d k = Ok v.
Proof. intros Hk. unfold getitem. by rewrite Hk. Qed.

Lemma getitem_None `{Countable K} {V} (d : gmap K V) (k : K) :
  d !! k = None → getitem d k = Raise KeyError.
Proof. intros Hk. unfold getitem. by rewrite Hk. Qed.

Lemma mapM_Ok_Forall2 {A B} (f : A → result B) (l : list A) (k : list B) :
  Forall2 (λ a b, f a = Ok b) l k → mapM f l = Ok k.
Proof.
  induction 1 as [|a b l k Hab _ IH]; [reflexivity|].
  cbn. rewrite Hab. cbn. rewrite IH. reflexivity.
Qed.

(** The ceiling of a division that leaves a remainder is one more than the
    floor; without a remainder the two agree. *)
Lemma ceil_div_remainder (a b : nat) :
  0 < b → a `mod` b ≠ 0 → a / b + 1 = ceil_div a b.
Proof.
  intros Hb Hm. unfold ceil_div.
  pose proof (Nat.div_mod_eq a b). pose proof (Nat.mod_upper_bound a b).
  apply (Nat.div_unique _ _ _ (a `mod` b - 1)); lia.
Qed.

Lemma ceil_div_exact (a b : nat) :
  0 < b → a `mod` b = 0 → a / b = ceil_div a b.
Proof.
  intros Hb Hm. unfold ceil_div.
  pose proof (Nat.div_mod_eq a b).
  apply (Nat.div_unique _ _ _ (b - 1)); lia.
Qed.

(** ** The vocabulary of the LSTM script *)

Section VocabularyFacts.
Import RNN.

Lemma get_idx_known v s i e :
  string_to_id v !! s = Some i → get_idx v s e = Ok (i, v).
Proof.
  intros Hs. unfold get_idx, getitem.
  rewrite decide_True by eauto. by rewrite Hs.
Qed.

Lemma get_idx_extend v s :
  string_to_id v !! s = None →
  get_idx v s true = Ok (size (string_to_id v), add_new_word v s).
Proof.
  intros Hs. unfold get_idx, getitem.
  rewrite decide_False by (rewrite Hs; by intros [? ?]).
  cbn. by rewrite lookup_insert_eq.
Qed.

Lemma get_idx_closed v s :
  string_to_id v !! s = None → get_idx v s false = Ok (unk_id v, v).
Proof.
  intros Hs. unfold get_idx.
  by rewrite decide_False by (rewrite Hs; by intros [? ?]).
Qed.

Lemma Vocabulary_init_consistent pad_token unk_token :
  pad_token ≠ unk_token → consistent (Vocabulary_init pad_token unk_token).
Proof.
  intros Hne. split; cbn.
  - intros s i. rewrite !lookup_insert. repeat case_decide; naive_solver.
  - rewrite !map_size_insert_None, !map_size_empty; try done;
      by rewrite lookup_insert_ne.
  - intros i.
    assert (Hsz : size (<[1:=unk_token]> (<[0:=pad_token]> (∅ : gmap nat string))) = 2)
      by (by rewrite !map_size_insert_None, !map_size_empty).
    rewrite Hsz, !lookup_insert.
    repeat case_decide; subst; try lia.
    rewrite lookup_empty. by intros [? ?].
Qed.

Lemma Vocabulary_default_consistent : consistent Vocabulary_default.
Proof. by apply Vocabulary_init_consistent. Qed.

Lemma add_new_word_consistent v s :
  consistent v → string_to_id v !! s = None → consistent (add_new_word v s).
Proof.
  intros [Hback Hsize Hdense] Hs.
  assert (Hfresh : id_to_string v !! size (id_to_string v) = None).
  { destruct (id_to_string v !! size (id_to_string v)) eqn:E; [|done].
    assert (size (id_to_string v) < size (id_to_string v)) by eauto. lia. }
  split; cbn.
  - intros s' i. rewrite Hsize. rewrite !lookup_insert.
    repeat case_decide; subst; try naive_solver.
  - rewrite !map_size_insert_None by done. by rewrite Hsize.
  - intros i. rewrite map_size_insert_None by done.
    rewrite lookup_insert. case_decide; subst; [lia|].
    intros Hi. apply Hdense in Hi. lia.
Qed.

(** With extension enabled, [get_idx] always answers, keeps the vocabulary
    consistent, keeps every ID already assigned, and the ID it returns is
    the token's ID in the vocabulary it leaves. *)
Lemma get_idx_extend_spec v s :
  consistent v →
  ∃ i v', get_idx v s true = Ok (i, v') ∧ consistent v'
          ∧ string_to_id v ⊆ string_to_id v'
          ∧ string_to_id v' !! s = Some i.
Proof.
  intros Hc. destruct (string_to_id v !! s) as [i|] eqn:Hs.
  - exists i, v. by rewrite (get_idx_known _ _ i).
  - exists (size (string_to_id v)), (add_new_word v s).
    rewrite get_idx_extend by done. split_and!; [done| |cbn|cbn].
    + by apply add_new_word_consistent.
    + by apply insert_subseteq.
    + by rewrite lookup_insert_eq.
Qed.

Lemma encode_tokens_extend_spec tokens : ∀ v acc,
  consistent v →
  ∃ ids v', encode_tokens v true tokens acc = Ok (acc ++ ids, v')
            ∧ consistent v'
            ∧ string_to_id v ⊆ string_to_id v'
            ∧ Forall2 (λ tok i, string_to_id v' !! tok = Some i) tokens ids.
Proof.
  induction tokens as [|tok rest IH]; intros v acc Hc.
  - exists [], v. cbn. by rewrite app_nil_r.
  - destruct (get_idx_extend_spec v tok Hc) as (i & v1 & Hget & Hc1 & Hsub1 & Hi).
    destruct (IH v1 (acc ++ [i]) Hc1) as (ids & v2 & Henc & Hc2 & Hsub2 & Hall).
    exists (i :: ids), v2. cbn. rewrite Hget. cbn. rewrite Henc.
    rewrite <- app_assoc. split_and!; try done.
    + by etrans.
    + constructor; [|done]. by eapply lookup_weaken.
Qed.

End VocabularyFacts.

(** C6. Encoding the characters of any string [S] through [get_idx] with
    [extend_vocab=True] and mapping the IDs back through [id_to_string]
    gives [S] again, for every vocabulary whose two dictionaries agree (the
    freshly constructed one, and every one obtained from it by [get_idx]). *)
Theorem C6_encode_decode_roundtrip (v : RNN.Vocabulary) (S : string) :
  consistent v →
  ∃ ids v', RNN.encode_tokens v true (chars S) [] = Ok (ids, v')
            ∧ length ids = String.length S
            ∧ RNN.ids_to_text v' ids = Ok S.
Proof.
  intros Hc.
  destruct (encode_tokens_extend_spec (chars S) v [] Hc)
    as (ids & v' & Henc & Hc' & _ & Hall).
  exists ids, v'. split_and!; [done| |].
  - apply Forall2_length in Hall. by rewrite <- Hall, length_chars.
  - unfold RNN.ids_to_text.
    rewrite (mapM_Ok_Forall2 _ ids (chars S)).
    + cbn. by rewrite join_chars.
    + apply Forall2_flip. eapply Forall2_impl; [exact Hall|].
      intros tok i Hi. cbn. unfold getitem.
      by rewrite (cons_back _ Hc' _ _ Hi).
Qed.

Lemma C6_encode_decode_roundtrip_witness :
  consistent RNN.Vocabulary_default ∧
  ∃ ids v', RNN.encode_tokens RNN.Vocabulary_default true (chars "ab ba") [] = Ok (ids, v')
            ∧ length ids = 5
            ∧ RNN.ids_to_text v' ids = Ok "ab ba".
Proof.
  split; [apply Vocabulary_default_consistent|].
  apply (C6_encode_decode_roundtrip RNN.Vocabulary_default "ab ba").
  apply Vocabulary_default_consistent.
Defined.

(** C7. On a vocabulary that does not hold [s], [get_idx(s, extend_vocab=False)]
    returns the unknown ID, does not raise, and leaves both dictionaries as
    they were. *)
Theorem C7_closed_lookup_unknown (v : RNN.Vocabulary) (s : string) :
  RNN.string_to_id v !! s = None →
  ∃ v', RNN.get_idx v s false = Ok (RNN.unk_id v, v')
        ∧ RNN.string_to_id v' = RNN.string_to_id v
        ∧ RNN.id_to_string v' = RNN.id_to_string v
        ∧ RNN.len v' = RNN.len v.
Proof.
  intros Hs. exists v. by rewrite get_idx_closed.
Qed.

Lemma C7_closed_lookup_unknown_witness :
  RNN.string_to_id RNN.Vocabulary_default !! "z" = None ∧
  ∃ v', RNN.get_idx RNN.Vocabulary_default "z" false
          = Ok (RNN.unk_id RNN.Vocabulary_default, v')
        ∧ RNN.string_to_id v' = RNN.string_to_id RNN.Vocabulary_default
        ∧ RNN.id_to_string v' = RNN.id_to_string RNN.Vocabulary_default
        ∧ RNN.len v' = RNN.len RNN.Vocabulary_default.
Proof.
  split; [reflexivity|].
  apply (C7_closed_lookup_unknown RNN.Vocabulary_default "z"). reflexivity.
Defined.

(** The corpus of the specification's scenario, two lines [ab] and [ba] each
    ended by a newline, encodes to the flat sequence that the batcher
    scenario starts from. *)
Lemma text_to_data_scenario :
  let nl := String (Ascii.ascii_of_nat 10) EmptyString in
  fst <$> RNN.text_to_data (Some [String.append "ab" nl; String.append "ba" nl])
            None true
  = Ok [2; 3; 4; 3; 2; 4].
Proof. vm_compute. reflexivity. Qed.

Lemma text_to_data_missing_file (vocab : option RNN.Vocabulary) (e : bool) :
  RNN.text_to_data None vocab e = Raise AssertionError.
Proof. reflexivity. Qed.

(** ** The BPTT batcher *)

Section BatcherFacts.
Import RNN.

Lemma mapM_Ok_fmap {A B} (f : A → result B) (g : A → B) (l : list A) :
  (∀ x, f x = Ok (g x)) → mapM f l = Ok (g <$> l).
Proof.
  intros Hf. induction l as [|x l IH]; [reflexivity|].
  cbn. rewrite Hf. cbn. rewrite IH. reflexivity.
Qed.

Lemma batch_at_rows (grid : Tensor2) (bsz W pad i : nat) :
  ncols grid = bsz →
  batch_at grid bsz W pad i
  = Ok {| ncols := bsz; rows := window_rows (rows grid) bsz W pad i |}.
Proof.
  intros Hn. unfold batch_at, window_rows, cat0, slice_rows, new_full2.
  destruct (decide (i = 0)) as [->|Hi]; cbn; [|by rewrite Hn].
  rewrite decide_True by done. by rewrite Nat.add_0_r.
Qed.

Lemma floordiv_Ok (a b : nat) : 0 < b → floordiv a b = Ok (a / b).
Proof. intros Hb. unfold floordiv. by rewrite decide_False by lia. Qed.

Lemma setslice_prefix_replicate (n pad : nat) (src : list nat) :
  length src ≤ n →
  setslice_prefix (replicate n pad) (length src) src
  = Ok (src ++ replicate (n - length src) pad).
Proof.
  intros Hn. unfold setslice_prefix.
  rewrite decide_True by (rewrite length_take, length_replicate; lia).
  by rewrite drop_replicate.
Qed.

Lemma view_Ok (r c : nat) (x : list nat) :
  r * c = length x →
  view r c x
  = Ok {| ncols := c; rows := (λ i, take c (drop (i * c) x)) <$> seq 0 r |}.
Proof. intros Hx. unfold view. by rewrite decide_True. Qed.

(** What [create_batch] computes, for positive [bsz] and [bptt_len]. *)
Lemma create_batch_body_eq (data : list nat) (bsz W pad : nat) :
  0 < bsz → 0 < W →
  let L := length data in
  let seg := L / bsz + 1 in
  let flat := data ++ replicate (seg * bsz - L) pad in
  let grid := t {| ncols := seg;
                   rows := (λ i, take seg (drop (i * seg) flat)) <$> seq 0 bsz |} in
  let n := seg / W + 1 in
  create_batch_body data bsz W pad
  = Ok (mkLocals L seg flat grid n
          ((λ i, {| ncols := bsz; rows := window_rows (rows grid) bsz W pad i |})
             <$> seq 0 n)).
Proof.
  intros Hb HW L seg flat grid n.
  assert (HL : L ≤ seg * bsz).
  { subst seg. pose proof (Nat.div_mod_eq L bsz).
    pose proof (Nat.mod_upper_bound L bsz). nia. }
  unfold create_batch_body, new_full.
  rewrite floordiv_Ok by done. cbn [mbind result_bind].
  rewrite setslice_prefix_replicate by done. cbn [mbind result_bind].
  rewrite view_Ok
    by (rewrite length_app, length_replicate; fold L seg; lia).
  cbn [mbind result_bind].
  rewrite floordiv_Ok by done. cbn [mbind result_bind].
  rewrite (mapM_Ok_fmap _
    (λ i, {| ncols := bsz; rows := window_rows (rows grid) bsz W pad i |})).
  - reflexivity.
  - intros i. apply batch_at_rows. unfold t, shape0. cbn.
    by rewrite length_fmap, length_seq.
Qed.

(** Dropping the first row of window [i] leaves the rows
    [i * W .. (i + 1) * W - 1] of the grid. *)
Lemma tail_window_rows (p : list (list nat)) (bsz W pad i : nat) :
  0 < W → tail (window_rows p bsz W pad i) = take W (drop (i * W) p).
Proof.
  intros HW. unfold window_rows, slice.
  destruct (decide (i = 0)) as [->|Hi]; cbn [tail].
  - by rewrite Nat.sub_0_r.
  - replace ((i + 1) * W - (i * W - 1)) with (S W) by nia.
    replace (i * W) with ((i * W - 1) + 1) at 2 by nia.
    generalize (i * W - 1). intros k.
    rewrite <- (drop_drop p 1 k).
    destruct (drop k p); cbn; [by rewrite take_nil|done].
Qed.

Lemma concat_chunks {A} (p : list A) (W n : nat) :
  concat ((λ i, take W (drop (i * W) p)) <$> seq 0 n) = take (n * W) p.
Proof.
  induction n as [|n IH]; [reflexivity|].
  rewrite seq_S, fmap_app, concat_app, IH. cbn.
  rewrite app_nil_r, take_take_drop. f_equal. lia.
Qed.

Lemma windows_cover (p : list (list nat)) (bsz W pad n : nat) :
  0 < W → length p ≤ n * W →
  concat (tail <$> (window_rows p bsz W pad <$> seq 0 n)) = p.
Proof.
  intros HW Hn. rewrite <- list_fmap_compose.
  erewrite list_fmap_ext; [|intros i j _; by apply tail_window_rows].
  rewrite concat_chunks. by apply take_ge.
Qed.

Lemma head_window_rows (p : list (list nat)) (bsz W pad i : nat) :
  0 < W → 0 < i → head (window_rows p bsz W pad i) = p !! (i * W - 1).
Proof.
  intros HW Hi. unfold window_rows, slice.
  rewrite decide_False by lia.
  rewrite head_lookup, lookup_take_lt by nia.
  rewrite lookup_drop. f_equal. lia.
Qed.

Lemma last_window_rows (p : list (list nat)) (bsz W pad i : nat) :
  0 < W → (i + 1) * W ≤ length p →
  last (window_rows p bsz W pad i) = p !! ((i + 1) * W - 1).
Proof.
  intros HW Hi. unfold window_rows, slice.
  destruct (decide (i = 0)) as [->|Hi0].
  - rewrite Nat.sub_0_r, drop_0.
    replace ((0 + 1) * W) with W in * by lia.
    rewrite last_cons, last_lookup, length_take_le by lia.
    destruct W as [|W]; [lia|]. cbn [pred].
    rewrite lookup_take_lt by lia.
    replace (S W - 1) with W by lia.
    destruct (lookup_lt_is_Some_2 p W) as [r Hr]; [lia|]. by rewrite Hr.
  - rewrite last_lookup, length_take_le by (rewrite length_drop; nia).
    rewrite lookup_take_lt by nia. rewrite lookup_drop. f_equal. nia.
Qed.

Lemma length_transpose (n : nat) (m : list (list nat)) :
  Forall (λ r, length r = n) m → length (transpose n m) = n.
Proof.
  induction 1 as [|r m Hr _ IH]; cbn.
  - apply length_replicate.
  - rewrite length_zip_with. lia.
Qed.

Lemma transpose_lookup (n : nat) (m : list (list nat)) (i : nat) :
  Forall (λ r, length r = n) m → i < n →
  transpose n m !! i = Some ((λ r, default 0 (r !! i)) <$> m).
Proof.
  intros Hm Hi. induction Hm as [|r m Hr _ IH]; cbn.
  - by apply lookup_replicate_2.
  - rewrite lookup_zip_with, IH.
    destruct (lookup_lt_is_Some_2 r i) as [x Hx]; [lia|].
    by rewrite Hx.
Qed.

(** The layout of the padded grid: cell [(i, b)] of the transposed view is
    element [b * seg + i] of the flat padded sequence. *)
Lemma grid_cell (flat : list nat) (bsz seg i b : nat) :
  length flat = bsz * seg → i < seg → b < bsz →
  cell_at (t {| ncols := seg;
                rows := (λ j, take seg (drop (j * seg) flat)) <$> seq 0 bsz |}) i b
  = flat !! (b * seg + i).
Proof.
  intros Hlen Hi Hb. unfold cell_at, t. cbn [rows ncols].
  rewrite transpose_lookup; [|apply Forall_fmap, Forall_forall|done].
  - cbn [mbind option_bind]. rewrite <- list_fmap_compose, list_lookup_fmap.
    rewrite lookup_seq_lt by done. cbn.
    rewrite lookup_take_lt, lookup_drop by done.
    destruct (lookup_lt_is_Some_2 flat (b * seg + i)) as [x Hx]; [nia|].
    by rewrite Hx.
  - intros j Hj%elem_of_seq. cbn.
    rewrite length_take_le; [done|]. rewrite length_drop. nia.
Qed.

Lemma grid_shape (flat : list nat) (bsz seg : nat) :
  length flat = bsz * seg →
  let grid := t {| ncols := seg;
                   rows := (λ j, take seg (drop (j * seg) flat)) <$> seq 0 bsz |} in
  ncols grid = bsz ∧ shape0 grid = seg
  ∧ Forall (λ r, length r = bsz) (rows grid).
Proof.
  intros Hlen grid.
  assert (Hrows : Forall (λ r, length r = seg)
            ((λ j, take seg (drop (j * seg) flat)) <$> seq 0 bsz)).
  { apply Forall_fmap, Forall_forall. intros j Hj%elem_of_seq. cbn.
    rewrite length_take_le; [done|]. rewrite length_drop. nia. }
  subst grid. unfold t, shape0. cbn [rows ncols]. split_and!.
  - by rewrite length_fmap, length_seq.
  - by apply length_transpose.
  - apply Forall_lookup. intros i r Hr.
    assert (i < seg).
    { apply lookup_lt_Some in Hr. by rewrite length_transpose in Hr. }
    rewrite transpose_lookup in Hr by done. injection Hr as <-.
    by rewrite !length_fmap, length_seq.
Qed.

Lemma Forall_window_rows (P : list nat → Prop) (p : list (list nat)) (bsz W pad i : nat) :
  P (replicate bsz pad) → Forall P p → Forall P (window_rows p bsz W pad i).
Proof.
  intros Hpad Hp. unfold window_rows, slice. case_decide.
  - constructor; [done|]. by apply Forall_take, Forall_drop.
  - by apply Forall_take, Forall_drop.
Qed.

(** The grid that [create_batch] builds by [view] and [t()] is the padded
    grid of the sequence. *)
Lemma grid_rows (data : list nat) (bsz pad : nat) :
  0 < bsz →
  let L := length data in
  let seg := L / bsz + 1 in
  let flat := data ++ replicate (seg * bsz - L) pad in
  rows (t {| ncols := seg;
             rows := (λ i, take seg (drop (i * seg) flat)) <$> seq 0 bsz |})
  = padded_grid data bsz pad.
Proof.
  intros Hb L seg flat.
  assert (HL : L ≤ seg * bsz).
  { subst seg. pose proof (Nat.div_mod_eq L bsz).
    pose proof (Nat.mod_upper_bound L bsz). nia. }
  assert (Hflat : length flat = bsz * seg).
  { subst flat. rewrite length_app, length_replicate. fold L. lia. }
  assert (Hchunks : Forall (λ r, length r = seg)
            ((λ j, take seg (drop (j * seg) flat)) <$> seq 0 bsz)).
  { apply Forall_fmap, Forall_forall. intros j Hj%elem_of_seq. cbn.
    rewrite length_take_le; [done|]. rewrite length_drop. nia. }
  unfold t, padded_grid. cbn [rows ncols]. fold L seg.
  apply list_eq. intros i. rewrite list_lookup_fmap.
  destruct (decide (i < seg)) as [Hi|Hi].
  - rewrite transpose_lookup, lookup_seq_lt by done. cbn [fmap option_fmap option_map].
    f_equal. rewrite <- list_fmap_compose. apply list_fmap_ext.
    intros k j Hj%lookup_seq. destruct Hj as [-> Hj]. cbn [Nat.add compose].
    rewrite lookup_take_lt, lookup_drop by done.
    destruct (decide (k * seg + i < L)) as [Hin|Hout].
    + subst flat. rewrite lookup_app_l by done.
      destruct (lookup_lt_is_Some_2 data (k * seg + i) Hin) as [x Hx].
      by rewrite Hx.
    + subst flat. rewrite lookup_app_r by (fold L; lia).
      rewrite lookup_replicate_2 by (fold L; nia).
      rewrite (lookup_ge_None_2 data) by (fold L; lia). done.
  - rewrite lookup_ge_None_2 by (rewrite length_transpose by done; lia).
    by rewrite (lookup_ge_None_2 (seq 0 seg)) by (rewrite length_seq; lia).
Qed.

End BatcherFacts.

(** C1 (as the code has it). For positive lane count [B] and window length
    [W], the batcher computes [segment_len = L // B + 1], pads the flat
    sequence with the pad ID to exactly [B * segment_len] cells, lays it out
    as [B] lanes of [segment_len] steps transposed to (time, lane), and
    produces exactly [segment_len // W + 1] windows.  These are the ceilings
    [ceil(L / B)] and [ceil(segment_len / W)] whenever the division leaves a
    remainder. *)
Theorem C1_batcher_shape (data : list nat) (bsz bptt_len pad_id : nat) :
  0 < bsz → 0 < bptt_len →
  ∃ loc, RNN.create_batch_body data bsz bptt_len pad_id = Ok loc
    ∧ RNN.create_batch data bsz bptt_len pad_id = Ok (RNN.batches loc)
    ∧ RNN.segment_len loc = length data / bsz + 1
    ∧ RNN.padded_flat loc
      = data ++ replicate (bsz * RNN.segment_len loc - length data) pad_id
    ∧ length (RNN.padded_flat loc) = bsz * RNN.segment_len loc
    ∧ RNN.ncols (RNN.padded loc) = bsz
    ∧ RNN.shape0 (RNN.padded loc) = RNN.segment_len loc
    ∧ Forall (λ r, length r = bsz) (RNN.rows (RNN.padded loc))
    ∧ (∀ i b, i < RNN.segment_len loc → b < bsz →
         cell_at (RNN.padded loc) i b
         = RNN.padded_flat loc !! (b * RNN.segment_len loc + i))
    ∧ length (RNN.batches loc) = RNN.segment_len loc / bptt_len + 1
    ∧ (length data `mod` bsz ≠ 0 →
         RNN.segment_len loc = ceil_div (length data) bsz)
    ∧ (length data `mod` bsz = 0 →
         RNN.segment_len loc = ceil_div (length data) bsz + 1)
    ∧ (RNN.segment_len loc `mod` bptt_len ≠ 0 →
         length (RNN.batches loc) = ceil_div (RNN.segment_len loc) bptt_len)
    ∧ (RNN.segment_len loc `mod` bptt_len = 0 →
         length (RNN.batches loc) = ceil_div (RNN.segment_len loc) bptt_len + 1).
Proof.
  intros Hb HW.
  pose proof (create_batch_body_eq data bsz bptt_len pad_id Hb HW) as Hbody.
  cbv zeta in Hbody.
  set (L := length data) in *. set (seg := L / bsz + 1) in *.
  set (flat := data ++ replicate (seg * bsz - L) pad_id) in *.
  assert (HL : L ≤ seg * bsz).
  { subst seg. pose proof (Nat.div_mod_eq L bsz).
    pose proof (Nat.mod_upper_bound L bsz). nia. }
  assert (Hflat : length flat = bsz * seg).
  { subst flat. rewrite length_app, length_replicate. fold L. lia. }
  destruct (grid_shape flat bsz seg Hflat) as (Hc & Hr & Hall).
  eexists. split; [exact Hbody|]. cbn [RNN.segment_len RNN.padded_flat
    RNN.padded RNN.batches]. split_and!.
  - unfold RNN.create_batch. by rewrite Hbody.
  - done.
  - subst flat. do 2 f_equal. lia.
  - done.
  - done.
  - done.
  - done.
  - intros i b Hi Hlane. by apply grid_cell.
  - by rewrite length_fmap, length_seq.
  - intros Hm. by apply ceil_div_remainder.
  - intros Hm. by rewrite <- ceil_div_exact.
  - intros Hm. rewrite length_fmap, length_seq. by apply ceil_div_remainder.
  - intros Hm. rewrite length_fmap, length_seq. by rewrite <- ceil_div_exact.
Qed.

Lemma C1_batcher_shape_witness :
  0 < 2 ∧ 0 < 2 ∧
  ∃ loc, RNN.create_batch_body [2; 3; 4; 3; 2] 2 2 0 = Ok loc
    ∧ RNN.segment_len loc = 3
    ∧ length (RNN.padded_flat loc) = 6
    ∧ length (RNN.batches loc) = 2.
Proof.
  split; [lia|]. split; [lia|].
  destruct (C1_batcher_shape [2; 3; 4; 3; 2] 2 2 0)
    as (loc & Hbody & _ & Hseg & _ & Hflat & _ & _ & _ & _ & Hn & _); [lia..|].
  exists loc. rewrite Hn, Hflat, Hseg. by split_and!.
Defined.

(** C1, as stated, fails: six IDs in two lanes give [segment_len = 4], eight
    padded cells and three windows, where the ceilings are 3, 6 and 2. *)
Lemma C1_ceilings_counterexample :
  ¬ batcher_uses_ceilings [2; 3; 4; 3; 2; 4] 2 2 0.
Proof.
  intros (loc & Hbody & Hseg & _).
  vm_compute in Hbody. injection Hbody as <-.
  vm_compute in Hseg. discriminate.
Qed.

(** C2. For positive lane count and window length: window 0 begins with one
    pad-filled row; for every [i >= 1] the first row of window [i] is the
    last row of window [i - 1]; and the windows' rows, each window without
    its first row, concatenate to the rows of the padded (time, lane) grid
    — the grid that the batcher holds, which is the padded grid of the
    given sequence: row [t] holds, for every lane [b], element
    [b * segment_len + t] of the sequence, or the pad ID past its end. *)
Theorem C2_windows_overlap_and_cover (data : list nat) (bsz bptt_len pad_id : nat) :
  0 < bsz → 0 < bptt_len →
  ∃ loc, RNN.create_batch_body data bsz bptt_len pad_id = Ok loc
    ∧ RNN.create_batch data bsz bptt_len pad_id = Ok (RNN.batches loc)
    ∧ (∃ b0, RNN.batches loc !! 0 = Some b0
             ∧ head (RNN.rows b0) = Some (replicate bsz pad_id))
    ∧ (∀ i, 1 ≤ i → i < length (RNN.batches loc) →
         ∃ bi bprev row,
           RNN.batches loc !! i = Some bi
           ∧ RNN.batches loc !! (i - 1) = Some bprev
           ∧ head (RNN.rows bi) = Some row
           ∧ last (RNN.rows bprev) = Some row)
    ∧ concat ((λ b, tail (RNN.rows b)) <$> RNN.batches loc)
      = RNN.rows (RNN.padded loc)
    ∧ RNN.rows (RNN.padded loc) = padded_grid data bsz pad_id
    ∧ concat ((λ b, tail (RNN.rows b)) <$> RNN.batches loc)
      = padded_grid data bsz pad_id.
Proof.
  intros Hb HW.
  pose proof (grid_rows data bsz pad_id Hb) as Hgrid. cbv zeta in Hgrid.
  pose proof (create_batch_body_eq data bsz bptt_len pad_id Hb HW) as Hbody.
  cbv zeta in Hbody.
  set (L := length data) in *. set (seg := L / bsz + 1) in *.
  set (flat := data ++ replicate (seg * bsz - L) pad_id) in *.
  assert (HL : L ≤ seg * bsz).
  { subst seg. pose proof (Nat.div_mod_eq L bsz).
    pose proof (Nat.mod_upper_bound L bsz). nia. }
  assert (Hflat : length flat = bsz * seg).
  { subst flat. rewrite length_app, length_replicate. fold L. lia. }
  destruct (grid_shape flat bsz seg Hflat) as (Hc & Hr & Hall).
  cbv zeta in Hc, Hr, Hall. unfold RNN.shape0 in Hr.
  set (grid := RNN.t _) in *. set (p := RNN.rows grid) in *.
  set (n := seg / bptt_len + 1) in *.
  pose proof (Nat.div_mod_eq seg bptt_len) as Hdm.
  pose proof (Nat.mod_upper_bound seg bptt_len) as Hmod.
  eexists. split; [exact Hbody|]. cbn [RNN.padded RNN.batches]. split_and!.
  - unfold RNN.create_batch. by rewrite Hbody.
  - eexists. rewrite list_lookup_fmap, lookup_seq_lt by lia. split; [done|].
    cbn [RNN.rows]. unfold window_rows. by rewrite decide_True.
  - intros i Hi1 Hin. rewrite length_fmap, length_seq in Hin.
    assert (Hle : i * bptt_len ≤ seg) by (subst n; nia).
    destruct (lookup_lt_is_Some_2 p (i * bptt_len - 1)) as [row Hrow]; [nia|].
    do 2 eexists. exists row.
    rewrite !list_lookup_fmap, !lookup_seq_lt by lia.
    split_and!; [done|done| |]; cbn [RNN.rows].
    + rewrite head_window_rows by lia. done.
    + rewrite last_window_rows by (try rewrite Hr; nia).
      rewrite <- Hrow. f_equal. nia.
  - rewrite <- list_fmap_compose.
    rewrite (list_fmap_compose (window_rows p bsz bptt_len pad_id) tail).
    apply windows_cover; [done|]. fold p. rewrite Hr. subst n. nia.
  - exact Hgrid.
  - rewrite <- Hgrid. rewrite <- list_fmap_compose.
    rewrite (list_fmap_compose (window_rows p bsz bptt_len pad_id) tail).
    apply windows_cover; [done|]. fold p. rewrite Hr. subst n. nia.
Qed.

Lemma C2_windows_overlap_and_cover_witness :
  0 < 2 ∧ 0 < 2 ∧
  ∃ loc, RNN.create_batch_body [2; 3; 4; 3; 2; 4] 2 2 0 = Ok loc
    ∧ RNN.create_batch [2; 3; 4; 3; 2; 4] 2 2 0 = Ok (RNN.batches loc)
    ∧ (∃ b0, RNN.batches loc !! 0 = Some b0
             ∧ head (RNN.rows b0) = Some (replicate 2 0))
    ∧ (∀ i, 1 ≤ i → i < length (RNN.batches loc) →
         ∃ bi bprev row,
           RNN.batches loc !! i = Some bi
           ∧ RNN.batches loc !! (i - 1) = Some bprev
           ∧ head (RNN.rows bi) = Some row
           ∧ last (RNN.rows bprev) = Some row)
    ∧ concat ((λ b, tail (RNN.rows b)) <$> RNN.batches loc)
      = RNN.rows (RNN.padded loc)
    ∧ RNN.rows (RNN.padded loc) = padded_grid [2; 3; 4; 3; 2; 4] 2 0
    ∧ concat ((λ b, tail (RNN.rows b)) <$> RNN.batches loc)
      = [[2; 2]; [3; 4]; [4; 0]; [3; 0]].
Proof.
  split; [lia|]. split; [lia|].
  apply (C2_windows_overlap_and_cover [2; 3; 4; 3; 2; 4] 2 2 0); lia.
Defined.

(** C5 (as the code has it). Batching [[2,3,4,3,2,4]] with [B = 2], [W = 2]
    gives [segment_len = 4], the padded sequence [[2,3,4,3,2,4,0,0]], the
    (time, lane) grid [[2,2],[3,4],[4,0],[3,0]] and three windows, the first
    of which starts with a pad row. *)
Theorem C5_scenario :
  RNN.create_batch_body [2; 3; 4; 3; 2; 4] 2 2 0
  = Ok {| RNN.text_len := 6;
          RNN.segment_len := 4;
          RNN.padded_flat := [2; 3; 4; 3; 2; 4; 0; 0];
          RNN.padded := {| RNN.ncols := 2;
                           RNN.rows := [[2; 2]; [3; 4]; [4; 0]; [3; 0]] |};
          RNN.num_batches := 3;
          RNN.batches :=
            [ {| RNN.ncols := 2; RNN.rows := [[0; 0]; [2; 2]; [3; 4]] |};
              {| RNN.ncols := 2; RNN.rows := [[3; 4]; [4; 0]; [3; 0]] |};
              {| RNN.ncols := 2; RNN.rows := [[3; 0]] |} ] |}.
Proof. vm_compute. reflexivity. Qed.

(** C5, as stated, fails: [segment_len] is 4, not 3, and the grid has eight
    cells, not nine. *)
Lemma C5_scenario_counterexample : ¬ scenario_as_stated.
Proof.
  intros (loc & Hbody & Hseg & _).
  vm_compute in Hbody. injection Hbody as <-.
  vm_compute in Hseg. discriminate.
Qed.

(** ** The decoder *)

Section DecoderFacts.
Import RNN.
Context {H C Logits Rng : Type}.
Context (topk1 : Logits → nat) (multinomial : Rng → Logits → nat * Rng).
Context (m : LSTMModel H C Logits) (vocab : Vocabulary).

(** Indexing the dictionary directly raises on the first key it lacks. *)
Lemma mapM_getitem_missing (d : gmap string nat) (l : list string) :
  Exists (λ c, d !! c = None) l → mapM (getitem d) l = Raise KeyError.
Proof.
  induction l as [|x l IH]; intros Hex; [by apply Exists_nil in Hex|].
  cbn [mapM].
  destruct (d !! x) as [i|] eqn:Hx;
    [rewrite (getitem_Some _ _ _ Hx)|by rewrite (getitem_None _ _ Hx)].
  cbn [mbind result_bind]. rewrite IH; [done|].
  apply Exists_cons in Hex as [Hex|Hex]; [congruence|done].
Qed.

Lemma mapM_getitem_present (d : gmap string nat) (l : list string) (P : nat → Prop) :
  Forall (λ c, ∃ i, d !! c = Some i ∧ P i) l →
  ∃ ids, mapM (getitem d) l = Ok ids ∧ length ids = length l ∧ Forall P ids.
Proof.
  induction 1 as [|x l (i & Hi & HP) _ (ids & Hids & Hlen & Hall)].
  - by exists [].
  - exists (i :: ids). cbn [mapM]. rewrite (getitem_Some _ _ _ Hi).
    cbn [mbind result_bind]. rewrite Hids. cbn.
    split_and!; [done|by rewrite Hlen|by constructor].
Qed.

(** A one-lane forward pass returns one row of logits per time step and a
    one-lane state. *)
Lemma forward_rows_one_lane (ids : list nat) : ∀ (h : H) (c : C),
  ∃ logits h' c',
    forward_rows m ((λ i, [i]) <$> ids) ([h], [c]) = (logits, ([h'], [c']))
    ∧ length logits = length ids.
Proof.
  induction ids as [|i ids IH]; intros h c.
  - by exists [], h, c.
  - cbn [fmap list_fmap forward_rows]. unfold forward_row.
    cbn [fst snd zip zip_with fmap list_fmap].
    destruct (cell m i (h, c)) as [o [h1 c1]] eqn:Hcell.
    cbn [fst snd].
    destruct (IH h1 c1) as (logits & h' & c' & Hrows & Hlen).
    rewrite Hrows. exists (o :: logits), h', c'. cbn. by rewrite Hlen.
Qed.

Lemma forward_one_lane (ids : list nat) (h : H) (c : C) :
  ids ≠ [] → Forall (λ i, i < num_classes m) ids →
  ∃ logits h' c',
    forward m {| ncols := 1; rows := (λ i, [i]) <$> ids |} ([h], [c])
    = Ok (logits, ([h'], [c']))
    ∧ length logits = length ids.
Proof.
  intros Hne Hall. unfold forward, shape0. cbn [rows ncols fst snd].
  rewrite bool_decide_eq_true_2.
  2:{ apply Forall_fmap. eapply Forall_impl; [exact Hall|].
      intros i Hi. cbn. by repeat constructor. }
  rewrite bool_decide_eq_false_2
    by (rewrite length_fmap; by destruct ids).
  rewrite bool_decide_eq_true_2 by done. cbn [negb].
  destruct (forward_rows_one_lane ids h c) as (logits & h' & c' & -> & Hlen).
  by exists logits, h', c'.
Qed.

(** The greedy decoding loop appends exactly one token per iteration. *)
Lemma decode_loop_greedy (steps : nat) : ∀ ix h c g out,
  (∀ row, topk1 row < num_classes m) →
  (∀ i, i < num_classes m → is_Some (id_to_string vocab !! i)) →
  ix < num_classes m →
  ∃ out', decode_loop topk1 multinomial m vocab false steps
            (XTensor (scalar_tensor ix)) ([h], [c]) g out = Ok (out ++ out')
          ∧ length out' = steps
          ∧ Forall (λ tok, ∃ row, id_to_string vocab !! topk1 row = Some tok) out'.
Proof.
  induction steps as [|k IH]; intros ix h c g out Htop Hvocab Hix.
  - exists []. cbn. by rewrite app_nil_r.
  - cbn [decode_loop model_call]. unfold scalar_tensor.
    destruct (forward_one_lane [ix] h c) as (logits & h' & c' & Hfw & Hlen);
      [done|by repeat constructor|].
    cbn [fmap list_fmap] in Hfw. rewrite Hfw. cbn [mbind result_bind].
    destruct logits as [|row [|? ?]]; try done.
    cbn [single_item mbind result_bind].
    destruct (Hvocab (topk1 row) (Htop row)) as [tok Htok].
    rewrite (getitem_Some _ _ _ Htok). cbn [mbind result_bind].
    destruct (IH (topk1 row) h' c' g (out ++ [tok]) Htop Hvocab (Htop row))
      as (out' & Hloop & Hlen' & Hall).
    exists (tok :: out'). unfold scalar_tensor in Hloop. rewrite Hloop.
    rewrite <- app_assoc. split_and!; [done|cbn; by rewrite Hlen'|].
    constructor; [by exists row|done].
Qed.

Lemma length_join (l : list string) :
  Forall (λ tok, String.length tok = 1) l → String.length (join l) = length l.
Proof.
  induction 1 as [|tok l Htok _ IH]; [reflexivity|].
  cbn. change (foldr String.append "" l) with (join l).
  rewrite string_length_append, Htok, IH. reflexivity.
Qed.

End DecoderFacts.

(** C3 (what the code does). [complete] indexes [string_to_id] directly: a
    prompt holding a character that the vocabulary lacks makes it raise
    [KeyError], for every model, step count and decoding mode; nothing is
    mapped to the unknown-token ID. *)
Theorem C3_unknown_prompt_character_raises {H C Logits Rng : Type}
    (topk1 : Logits → nat) (multinomial : Rng → Logits → nat * Rng)
    (m : RNN.LSTMModel H C Logits) (vocab : RNN.Vocabulary)
    (prompt : string) (steps : nat) (sample : bool) (g : Rng) :
  Exists (λ c, RNN.string_to_id vocab !! c = None) (chars prompt) →
  RNN.complete topk1 multinomial m vocab prompt steps sample g = Raise KeyError.
Proof.
  intros Hex. unfold RNN.complete, RNN.complete_tokens.
  by rewrite mapM_getitem_missing.
Qed.

Lemma C3_unknown_prompt_character_raises_witness :
  Exists (λ c, RNN.string_to_id vocab_a !! c = None) (chars "az") ∧
  RNN.complete (constant_topk1 2) no_sampler constant_model vocab_a "az" 4 false tt
  = Raise KeyError.
Proof.
  assert (Hex : Exists (λ c, RNN.string_to_id vocab_a !! c = None) (chars "az")).
  { apply Exists_cons_tl, Exists_cons_hd. reflexivity. }
  split; [exact Hex|].
  exact (C3_unknown_prompt_character_raises (constant_topk1 2) no_sampler
           constant_model vocab_a "az" 4 false tt Hex).
Defined.

(** C10 (as the code has it). For a non-empty prompt whose characters are
    all in the vocabulary, a model whose classes are the vocabulary's IDs
    and every [steps], greedy [complete] returns the concatenation of
    exactly [steps + 1] generated tokens — one chosen from the prompt's
    final distribution and one per decoding iteration; the string has
    [steps + 1] characters when every generated token is a single
    character. *)
Theorem C10_complete_generates_steps_plus_one {H C Logits Rng : Type}
    (topk1 : Logits → nat) (multinomial : Rng → Logits → nat * Rng)
    (m : RNN.LSTMModel H C Logits) (vocab : RNN.Vocabulary)
    (prompt : string) (steps : nat) (g : Rng) :
  prompt ≠ "" →
  Forall (λ c, ∃ i, RNN.string_to_id vocab !! c = Some i ∧ i < RNN.num_classes m)
         (chars prompt) →
  (∀ row, topk1 row < RNN.num_classes m) →
  (∀ i, i < RNN.num_classes m → is_Some (RNN.id_to_string vocab !! i)) →
  ∃ out, RNN.complete_tokens topk1 multinomial m vocab prompt steps false g = Ok out
    ∧ RNN.complete topk1 multinomial m vocab prompt steps false g = Ok (join out)
    ∧ length out = steps + 1
    ∧ Forall (λ tok, ∃ row, RNN.id_to_string vocab !! topk1 row = Some tok) out
    ∧ (Forall (λ tok, String.length tok = 1) out →
       String.length (join out) = steps + 1).
Proof.
  intros Hne Hprompt Htop Hvocab.
  destruct (mapM_getitem_present _ _ _ Hprompt) as (ids & Hids & Hlen & Hall).
  assert (Hids_ne : ids ≠ []).
  { destruct prompt; [done|]. by destruct ids. }
  destruct (forward_one_lane m ids (RNN.h0 m) (RNN.c0 m) Hids_ne Hall)
    as (logits & h' & c' & Hfw & Hlog).
  assert (∃ row, last logits = Some row) as [row Hrow].
  { destruct logits as [|r logits] using rev_ind.
    - destruct ids; [done|discriminate].
    - exists r. by rewrite last_snoc. }
  destruct (Hvocab (topk1 row) (Htop row)) as [tok Htok].
  destruct (decode_loop_greedy topk1 multinomial m vocab steps
              (topk1 row) h' c' g [tok] Htop Hvocab (Htop row))
    as (out' & Hloop & Hlen' & Hall').
  assert (Htokens : RNN.complete_tokens topk1 multinomial m vocab prompt steps false g
                    = Ok (tok :: out')).
  { unfold RNN.complete_tokens. rewrite Hids. cbn [mbind result_bind].
    unfold RNN.init_hidden. cbn [replicate]. rewrite Hfw.
    cbn [mbind result_bind]. unfold RNN.last_item. rewrite Hrow.
    cbn [mbind result_bind]. rewrite (getitem_Some _ _ _ Htok).
    cbn [mbind result_bind]. exact Hloop. }
  exists (tok :: out'). split_and!.
  - exact Htokens.
  - unfold RNN.complete. by rewrite Htokens.
  - cbn. lia.
  - constructor; [by exists row|done].
  - intros Hone. rewrite length_join by done. cbn. lia.
Qed.

Lemma C10_complete_generates_steps_plus_one_witness :
  "aa" ≠ "" ∧
  ∃ out, RNN.complete_tokens (constant_topk1 2) no_sampler constant_model
           vocab_a "aa" 3 false tt = Ok out
    ∧ RNN.complete (constant_topk1 2) no_sampler constant_model
        vocab_a "aa" 3 false tt = Ok (join out)
    ∧ length out = 3 + 1
    ∧ Forall (λ tok, ∃ row, RNN.id_to_string vocab_a !! constant_topk1 2 row
                            = Some tok) out
    ∧ (Forall (λ tok, String.length tok = 1) out →
       String.length (join out) = 3 + 1).
Proof.
  split; [discriminate|].
  apply (C10_complete_generates_steps_plus_one (constant_topk1 2) no_sampler
           constant_model vocab_a "aa" 3 tt).
  - discriminate.
  - repeat constructor; exists 2; (split; [reflexivity | cbn; lia]).
  - intros row. unfold constant_topk1, constant_model. cbn. lia.
  - intros i Hi. unfold constant_model in Hi. cbn in Hi.
    destruct i as [|[|[|i]]]; [vm_compute; eauto ..|lia].
Defined.

(** C10, as stated, fails twice: the empty prompt has no character outside
    the vocabulary, yet [complete] raises on it; and a model that picks the
    pad class returns the five-character token of that class. *)
Lemma C10_complete_counterexample :
  ¬ complete_yields_chars (constant_topk1 2) no_sampler constant_model
      vocab_a "" 3 tt
  ∧ ¬ complete_yields_chars (constant_topk1 0) no_sampler constant_model
        vocab_a "a" 0 tt.
Proof.
  split; intros Hc.
  - destruct Hc as (s & Hs & _); [constructor|].
    vm_compute in Hs. discriminate.
  - destruct Hc as (s & Hs & Hlen).
    + repeat constructor. vm_compute. eauto.
    + vm_compute in Hs. injection Hs as <-. vm_compute in Hlen. discriminate.
Qed.

(** ** The training loop *)

Section ForwardFacts.
Import RNN.
Context {H C Logits : Type}.


Lemma forward_rows_shape (m : LSTMModel H C Logits) (B : nat) (rs : list (list nat)) :
  ∀ (hs : list H) (cs : list C),
  Forall (λ r, length r = B) rs → length hs = B → length cs = B →
  ∃ o hs' cs', forward_rows m rs (hs, cs) = (o, (hs', cs'))
               ∧ length o = length rs * B
               ∧ length hs' = B ∧ length cs' = B.
Proof.
  induction rs as [|row rest IH]; intros hs cs Hrs Hh Hc.
  - by exists [], hs, cs.
  - apply Forall_cons in Hrs as [Hrow Hrest].
    cbn [forward_rows]. unfold forward_row. cbn [fst snd].
    set (outs := zip_with (cell m) row (zip hs cs)).
    assert (Houts : length outs = B).
    { subst outs. rewrite length_zip_with, length_zip_with. lia. }
    destruct (IH ((λ o, fst (snd o)) <$> outs) ((λ o, snd (snd o)) <$> outs))
      as (o & hs' & cs' & Hfw & Ho & Hh' & Hc');
      [done|by rewrite length_fmap|by rewrite length_fmap|].
    rewrite Hfw. exists ((fst <$> outs) ++ o), hs', cs'.
    split_and!; [done| |done|done].
    rewrite length_app, length_fmap, Houts, Ho. cbn [length]. lia.
Qed.






End ForwardFacts.

Section TrainingFacts.
Import RNN.
Context {H C Logits Rng : Type}.
Context (topk1 : Logits → nat) (multinomial : Rng → Logits → nat * Rng).
Context (optimizer_step : LSTMModel H C Logits → list Logits → list nat
                          → LSTMModel H C Logits).



(** Sampled decoding of two steps or more: the second iteration is handed
    the integer that the first one drew. *)
Lemma decode_loop_sampled_raises (m : LSTMModel H C Logits) (vocab : Vocabulary)
    (k : nat) x st g out :
  raises (decode_loop topk1 multinomial m vocab true (S (S k)) x st g out).
Proof.
  unfold raises. cbn [decode_loop].
  destruct (model_call m x st) as [[logits st']|e]; cbn [mbind result_bind];
    [|by eexists].
  destruct (single_item logits) as [row|e]; cbn [mbind result_bind];
    [|by eexists].
  destruct (multinomial g row) as [ix g'].
  destruct (getitem (id_to_string vocab) ix) as [tok|e]; cbn [mbind result_bind];
    [|by eexists].
  cbn [model_call mbind result_bind]. by eexists.
Qed.

Lemma complete_sampled_raises (m : LSTMModel H C Logits) (vocab : Vocabulary)
    (text : string) (k : nat) (g : Rng) :
  raises (complete topk1 multinomial m vocab text (S (S k)) true g).
Proof.
  unfold raises, complete, complete_tokens.
  destruct (mapM (getitem (string_to_id vocab)) (chars text)) as [ids|e];
    cbn [mbind result_bind]; [|by eexists].
  destruct (forward m _ (init_hidden m 1)) as [[logits st]|e];
    cbn [mbind result_bind]; [|by eexists].
  destruct (last_item logits) as [row|e]; cbn [mbind result_bind]; [|by eexists].
  destruct (multinomial g row) as [ix g'].
  destruct (getitem (id_to_string vocab) ix) as [tok|e]; cbn [mbind result_bind];
    [|by eexists].
  destruct (decode_loop_sampled_raises m vocab k
              (XTensor (scalar_tensor ix)) st g' [tok]) as [e He].
  rewrite He. by eexists.
Qed.


End TrainingFacts.




(** ** The paired dataset *)

Section DatasetFacts.
Import Transformer.

Lemma grows_to_refl e v : grows_to e v v.
Proof. by repeat split. Qed.

Lemma grows_to_trans e v1 v2 v3 :
  grows_to e v1 v2 → grows_to e v2 v3 → grows_to e v1 v3.
Proof.
  intros (Hs1 & Hp1 & Hu1 & He1 & Hb1 & Hf1) (Hs2 & Hp2 & Hu2 & He2 & Hb2 & Hf2).
  split_and!; try congruence.
  - by etrans.
  - intros He. rewrite (Hf2 He). by apply Hf1.
Qed.

(** [get_idx] never raises; the ID it returns is the token's ID in every
    vocabulary that the one it leaves grows to. *)
Lemma get_idx_spec (v : Vocabulary) (s : string) (e : bool) :
  ∃ i v', get_idx v s e = Ok (i, v') ∧ grows_to e v v'
          ∧ ∀ v'', grows_to e v' v'' → i = lookup_id v'' s.
Proof.
  unfold get_idx. destruct (string_to_id v !! s) as [i|] eqn:Hs.
  - exists i, v. rewrite decide_True by eauto.
    rewrite (getitem_Some _ _ _ Hs). split_and!; [done|apply grows_to_refl|].
    intros v'' (Hsub & _). unfold lookup_id.
    by rewrite (lookup_weaken _ _ _ _ Hs Hsub).
  - rewrite decide_False by (by intros [? ?]).
    destruct e.
    + exists (size (string_to_id v)), (add_new_word v s).
      rewrite (getitem_Some _ _ (size (string_to_id v)))
        by apply lookup_insert_eq.
      split_and!; [done| |].
      * split_and!; try done. cbn. by apply insert_subseteq.
      * intros v'' (Hsub & _). unfold lookup_id.
        erewrite lookup_weaken; [done| |exact Hsub].
        apply lookup_insert_eq.
    + exists (unk_id v), v. split_and!; [done|apply grows_to_refl|].
      intros v'' (_ & _ & _ & _ & _ & Hf). rewrite (Hf eq_refl).
      unfold lookup_id. by rewrite Hs.
Qed.

Lemma encode_tokens_spec (e : bool) (tokens : list string) : ∀ v acc,
  ∃ ids v', encode_tokens v e tokens acc = Ok (acc ++ ids, v')
            ∧ grows_to e v v'
            ∧ ∀ v'', grows_to e v' v'' → ids = lookup_id v'' <$> tokens.
Proof.
  induction tokens as [|tok rest IH]; intros v acc.
  - exists [], v. cbn. rewrite app_nil_r. split_and!; [done|apply grows_to_refl|done].
  - destruct (get_idx_spec v tok e) as (i & v1 & Hget & Hg1 & Hi).
    destruct (IH v1 (acc ++ [i])) as (ids & v2 & Henc & Hg2 & Hids).
    exists (i :: ids), v2. cbn [encode_tokens]. rewrite Hget.
    cbn [mbind result_bind]. rewrite Henc, <- app_assoc.
    split_and!; [done|by eapply grows_to_trans|].
    intros v'' Hg. cbn. f_equal.
    + apply Hi. by eapply grows_to_trans.
    + by apply Hids.
Qed.

Lemma pad_to_Ok (n pad : nat) (seq : list nat) :
  length seq ≤ n → pad_to n pad seq = Ok (padded_to n pad seq).
Proof. intros Hn. unfold pad_to. by rewrite setslice_prefix_replicate. Qed.

Lemma length_padded_to (n pad : nat) (seq : list nat) :
  length seq ≤ n → length (padded_to n pad seq) = n.
Proof.
  intros Hn. unfold padded_to. rewrite length_app, length_replicate. lia.
Qed.

(** The length-statistics loop computes the largest line length. *)
Lemma max_line_length_foldl (lines : list string) : ∀ a,
  foldl (λ mx line,
           let length := length (chars line) in
           if decide (mx < length) then length else mx) a lines
  = a `max` max_list (String.length <$> lines).
Proof.
  induction lines as [|line lines IH]; intros a; cbn [foldl].
  - cbn. lia.
  - rewrite IH. cbn. rewrite length_chars. case_decide; lia.
Qed.

Lemma max_line_length_max_list (lines : list string) :
  max_line_length lines = max_list (String.length <$> lines).
Proof. unfold max_line_length. by rewrite max_line_length_foldl. Qed.

Lemma max_line_length_ge (lines : list string) (line : string) :
  line ∈ lines → String.length line ≤ max_line_length lines.
Proof.
  intros Hin. rewrite max_line_length_max_list.
  apply max_list_elem_of_le, list_elem_of_fmap. eauto.
Qed.

Lemma load_src_spec (e : bool) (n pad : nat) (lines : list string) : ∀ v acc,
  Forall (λ line, String.length line ≤ n) lines →
  ∃ out v', load_src v e n pad lines acc = Ok (acc ++ out, v')
            ∧ grows_to e v v'
            ∧ ∀ v'', grows_to e v' v'' →
                out = (λ line, padded_to n pad (source_example v'' line))
                        <$> lines.
Proof.
  induction lines as [|line rest IH]; intros v acc Hlen.
  - exists [], v. cbn. rewrite app_nil_r. split_and!; [done|apply grows_to_refl|done].
  - apply Forall_cons in Hlen as [Hline Hrest].
    destruct (encode_tokens_spec e (chars line) v []) as (ids & v1 & Henc & Hg1 & Hids).
    cbn [app] in Henc.
    assert (Hidlen : length ids = String.length line).
    { rewrite (Hids v1 (grows_to_refl _ _)), length_fmap. apply length_chars. }
    destruct (IH v1 (acc ++ [padded_to n pad ids]) Hrest)
      as (out & v2 & Hload & Hg2 & Hout).
    exists (padded_to n pad ids :: out), v2.
    cbn [load_src]. rewrite Henc. cbn [mbind result_bind].
    rewrite pad_to_Ok by lia. cbn [mbind result_bind].
    rewrite Hload, <- app_assoc.
    split_and!; [done|by eapply grows_to_trans|].
    intros v'' Hg. cbn [fmap list_fmap]. f_equal; [|by apply Hout].
    unfold source_example.
    by rewrite <- (Hids v'') by (by eapply grows_to_trans).
Qed.

Lemma load_tgt_spec (e : bool) (n pad sos eos : nat) (lines : list string) :
  ∀ v acc,
  Forall (λ line, String.length line + 2 ≤ n) lines →
  ∃ out v', load_tgt v e n pad sos eos lines acc = Ok (acc ++ out, v')
            ∧ grows_to e v v'
            ∧ ∀ v'', grows_to e v' v'' →
                out = (λ line, padded_to n pad
                                 (sos :: (lookup_id v'' <$> chars line) ++ [eos]))
                        <$> lines.
Proof.
  induction lines as [|line rest IH]; intros v acc Hlen.
  - exists [], v. cbn. rewrite app_nil_r. split_and!; [done|apply grows_to_refl|done].
  - apply Forall_cons in Hlen as [Hline Hrest].
    destruct (encode_tokens_spec e (chars line) v [sos])
      as (ids & v1 & Henc & Hg1 & Hids).
    assert (Hidlen : length ids = String.length line).
    { rewrite (Hids v1 (grows_to_refl _ _)), length_fmap. apply length_chars. }
    set (seq := ([sos] ++ ids) ++ [eos]).
    destruct (IH v1 (acc ++ [padded_to n pad seq]) Hrest)
      as (out & v2 & Hload & Hg2 & Hout).
    exists (padded_to n pad seq :: out), v2.
    cbn [load_tgt]. unfold encode_target. rewrite Henc.
    cbn [mbind result_bind]. fold seq.
    rewrite pad_to_Ok
      by (subst seq; rewrite !length_app; cbn [length]; lia).
    cbn [mbind result_bind]. rewrite Hload, <- app_assoc.
    split_and!; [done|by eapply grows_to_trans|].
    intros v'' Hg. cbn [fmap list_fmap]. f_equal; [|by apply Hout].
    subst seq.
    by rewrite <- (Hids v'') by (by eapply grows_to_trans).
Qed.

End DatasetFacts.


(** Files with different numbers of lines are rejected by the final
    assertion. *)
Lemma parallel_text_to_data_misaligned :
  Transformer.parallel_text_to_data (Some ["ab"; "c"]) (Some ["x"]) None None true
  = Raise AssertionError.
Proof. vm_compute. reflexivity. Qed.


(** ** The accuracy metric *)

Section AccuracyFacts.
Import Transformer.
Context {A B : Type} (eqb : A → B → bool).

(** The condition of the [if] is a bound method, which is true: every
    iteration that gets as far as the test counts the example. *)
Lemma truthy_attr_all (x : Tensor bool) : truthy (attr_all x) = true.
Proof. reflexivity. Qed.

(** Calling the method instead would look at the elements. *)
Lemma truthy_call_all (x : Tensor bool) :
  truthy (call_all x) = forallb id (data x).
Proof. reflexivity. Qed.

Lemma count_correct_all (preds : Tensor A) (tgt_ : Tensor B)
    (n : nat) (sp st : list nat) (range : list nat) : ∀ correct,
  shape preds = n :: sp → shape tgt_ = n :: st →
  is_Some (broadcast_shapes sp st) →
  Forall (λ i, i < n) range →
  count_correct eqb preds tgt_ range correct = Ok (correct + length range).
Proof.
  intros correct Hp Ht [out Hout] Hrange. revert correct.
  induction Hrange as [|i range Hi _ IH]; intros correct.
  - cbn. f_equal. lia.
  - cbn [count_correct]. unfold index0. rewrite Hp, Ht.
    rewrite !decide_True by done. cbn [mbind result_bind].
    unfold tensor_eq. cbn [shape]. rewrite Hout.
    cbn [mbind result_bind]. rewrite truthy_attr_all, IH.
    f_equal. cbn [length]. lia.
Qed.

End AccuracyFacts.

(** C9 (as the code has it). [compute_accuracy] does not look at the
    contents: for tensors whose leading dimensions have the same non-zero
    size and whose per-example shapes can be compared (broadcast), it
    returns 1, whatever the elements are. *)
Theorem C9_accuracy_ignores_contents {A B : Type} (eqb : A → B → bool)
    (n : nat) (sp st : list nat) (dp : list A) (dt : list B) :
  0 < n →
  is_Some (Transformer.broadcast_shapes sp st) →
  ∃ q, Transformer.compute_accuracy eqb
         (Transformer.mkTensor (n :: sp) dp) (Transformer.mkTensor (n :: st) dt)
       = Ok q
       ∧ Qeq q 1.
Proof.
  intros Hn Hbc. exists (Qmake (Z.of_nat n) (Pos.of_nat n)). split.
  - unfold Transformer.compute_accuracy, Transformer.shape0.
    cbn [Transformer.shape mbind result_bind].
    rewrite (count_correct_all eqb _ _ n sp st); [|done|done|done|].
    + cbn [mbind result_bind]. rewrite length_seq.
      unfold Transformer.true_div. by rewrite decide_False by lia.
    + apply Forall_forall. intros i Hi%elem_of_seq. lia.
  - unfold Qeq. cbn [Qnum Qden].
    destruct n as [|n]; [lia|].
    rewrite <- Pos.of_nat_succ, Zpos_P_of_succ_nat. lia.
Qed.

Lemma C9_accuracy_ignores_contents_witness :
  0 < 2 ∧ is_Some (Transformer.broadcast_shapes [3; 2] [2]) ∧
  ∃ q, Transformer.compute_accuracy Nat.eqb
         (Transformer.mkTensor [2; 3; 2] [1; 2; 3; 4; 5; 6; 7; 8; 9; 10; 11; 12])
         (Transformer.mkTensor [2; 2] [0; 0; 0; 0])
       = Ok q
       ∧ Qeq q 1.
Proof.
  assert (Hbc : is_Some (Transformer.broadcast_shapes [3; 2] [2]))
    by (vm_compute; eauto).
  split; [lia|]. split; [exact Hbc|].
  apply (C9_accuracy_ignores_contents Nat.eqb 2 [3; 2] [2]); [lia|exact Hbc].
Defined.

(** C9, as stated, fails twice: with no example at all, the division is
    [0 / 0] and raises; with per-example shapes that cannot be compared
    (two against three elements), the comparison raises. *)
Lemma C9_accuracy_counterexample :
  ¬ accuracy_is_one Nat.eqb
      (Transformer.mkTensor [0; 3] []) (Transformer.mkTensor [0; 3] [])
  ∧ ¬ accuracy_is_one Nat.eqb
        (Transformer.mkTensor [2; 2] [1; 2; 3; 4])
        (Transformer.mkTensor [2; 3] [1; 2; 3; 4; 5; 6]).
Proof.
  split; intros Hc.
  - destruct Hc as (q & Hq & _); [by exists 0, [3], [3]|].
    vm_compute in Hq. discriminate.
  - destruct Hc as (q & Hq & _); [by exists 2, [2], [3]|].
    vm_compute in Hq. discriminate.
Qed.

(** * Further properties of the code *)

(** ** Vocabulary *)

(** X1. On a vocabulary whose dictionaries agree, [get_idx] never raises,
    with or without extension; the vocabulary it leaves still agrees, holds
    every entry that was there before, unchanged, and has the same reserved
    IDs. *)
Theorem X1_get_idx_keeps_consistent (v : RNN.Vocabulary) (s : string) (e : bool) :
  consistent v →
  ∃ i v', RNN.get_idx v s e = Ok (i, v')
    ∧ consistent v'
    ∧ RNN.string_to_id v ⊆ RNN.string_to_id v'
    ∧ RNN.id_to_string v ⊆ RNN.id_to_string v'
    ∧ RNN.pad_id v' = RNN.pad_id v
    ∧ RNN.unk_id v' = RNN.unk_id v.
Proof.
  intros Hc. destruct (RNN.string_to_id v !! s) as [i|] eqn:Hs.
  - exists i, v. by rewrite (get_idx_known _ _ i).
  - destruct e.
    + exists (size (RNN.string_to_id v)), (RNN.add_new_word v s).
      rewrite get_idx_extend by done.
      split_and!; [done|by apply add_new_word_consistent| | |done|done]; cbn.
      * by apply insert_subseteq.
      * apply insert_subseteq.
        destruct (RNN.id_to_string v !! size (RNN.id_to_string v)) eqn:E; [|done].
        assert (size (RNN.id_to_string v) < size (RNN.id_to_string v))
          by (apply (cons_dense _ Hc); eauto).
        lia.
    + exists (RNN.unk_id v), v. by rewrite get_idx_closed.
Qed.

Lemma X1_get_idx_keeps_consistent_witness :
  consistent RNN.Vocabulary_default ∧
  ∃ i v', RNN.get_idx RNN.Vocabulary_default "q" true = Ok (i, v')
    ∧ consistent v'
    ∧ RNN.string_to_id RNN.Vocabulary_default ⊆ RNN.string_to_id v'
    ∧ RNN.id_to_string RNN.Vocabulary_default ⊆ RNN.id_to_string v'
    ∧ RNN.pad_id v' = RNN.pad_id RNN.Vocabulary_default
    ∧ RNN.unk_id v' = RNN.unk_id RNN.Vocabulary_default.
Proof.
  split; [apply Vocabulary_default_consistent|].
  apply (X1_get_idx_keeps_consistent RNN.Vocabulary_default "q" true).
  apply Vocabulary_default_consistent.
Defined.

(** X2. A string that the vocabulary lacks gets, with extension, the next
    free ID: the vocabulary's size before the call.  Afterwards the size is
    one more, and the string and that ID map to each other. *)
Theorem X2_new_word_gets_next_id (v : RNN.Vocabulary) (s : string) :
  consistent v →
  RNN.string_to_id v !! s = None →
  ∃ v', RNN.get_idx v s true = Ok (RNN.len v, v')
    ∧ RNN.len v' = RNN.len v + 1
    ∧ size (RNN.string_to_id v') = RNN.len v + 1
    ∧ RNN.string_to_id v' !! s = Some (RNN.len v)
    ∧ RNN.id_to_string v' !! RNN.len v = Some s.
Proof.
  intros Hc Hs. exists (RNN.add_new_word v s).
  pose proof (add_new_word_consistent v s Hc Hs) as Hc'.
  unfold RNN.len. rewrite get_idx_extend by done.
  rewrite (cons_size _ Hc). split_and!; [done| | | |]; cbn.
  - rewrite map_size_insert_None; [lia|].
    destruct (RNN.id_to_string v !! size (RNN.id_to_string v)) eqn:E; [|done].
    assert (size (RNN.id_to_string v) < size (RNN.id_to_string v))
      by (apply (cons_dense _ Hc); eauto).
    lia.
  - rewrite map_size_insert_None by done. rewrite (cons_size _ Hc). lia.
  - by rewrite (cons_size _ Hc), lookup_insert_eq.
  - by rewrite lookup_insert_eq.
Qed.

Lemma X2_new_word_gets_next_id_witness :
  consistent RNN.Vocabulary_default ∧
  RNN.string_to_id RNN.Vocabulary_default !! "q" = None ∧
  ∃ v', RNN.get_idx RNN.Vocabulary_default "q" true
        = Ok (RNN.len RNN.Vocabulary_default, v')
    ∧ RNN.len v' = RNN.len RNN.Vocabulary_default + 1
    ∧ size (RNN.string_to_id v') = RNN.len RNN.Vocabulary_default + 1
    ∧ RNN.string_to_id v' !! "q" = Some (RNN.len RNN.Vocabulary_default)
    ∧ RNN.id_to_string v' !! RNN.len RNN.Vocabulary_default = Some "q".
Proof.
  split; [apply Vocabulary_default_consistent|]. split; [reflexivity|].
  apply (X2_new_word_gets_next_id RNN.Vocabulary_default "q");
    [apply Vocabulary_default_consistent | reflexivity].
Defined.

(** X3. Looking a string up again changes nothing: after [get_idx] returned
    an ID for it, a second call returns the same ID and leaves the
    vocabulary as the first call left it — unless the first call was made
    without extension and the second with it. *)
Theorem X3_get_idx_again (v v' : RNN.Vocabulary) (s : string) (e1 e2 : bool) (i : nat) :
  (e2 = true → e1 = true) →
  RNN.get_idx v s e1 = Ok (i, v') →
  RNN.get_idx v' s e2 = Ok (i, v').
Proof.
  intros He Hget. destruct (RNN.string_to_id v !! s) as [j|] eqn:Hs.
  - rewrite (get_idx_known _ _ j) in Hget by done. injection Hget as <- <-.
    by apply get_idx_known.
  - destruct e1.
    + rewrite get_idx_extend in Hget by done. injection Hget as <- <-.
      apply get_idx_known. cbn. by rewrite lookup_insert_eq.
    + rewrite get_idx_closed in Hget by done. injection Hget as <- <-.
      destruct e2; [by specialize (He eq_refl)|]. by apply get_idx_closed.
Qed.

Lemma X3_get_idx_again_witness :
  (false = true → true = true) ∧
  RNN.get_idx RNN.Vocabulary_default "q" true
  = Ok (2, RNN.add_new_word RNN.Vocabulary_default "q") ∧
  RNN.get_idx (RNN.add_new_word RNN.Vocabulary_default "q") "q" false
  = Ok (2, RNN.add_new_word RNN.Vocabulary_default "q").
Proof.
  assert (H1 : false = true → true = true) by done.
  assert (H2 : RNN.get_idx RNN.Vocabulary_default "q" true
               = Ok (2, RNN.add_new_word RNN.Vocabulary_default "q"))
    by reflexivity.
  split; [exact H1|]. split; [exact H2|].
  exact (X3_get_idx_again _ _ "q" true false 2 H1 H2).
Defined.

(** X4. In a vocabulary whose dictionaries agree, the IDs in use are exactly
    [0 .. len - 1], and the two dictionaries are inverse to each other: a
    string has an ID exactly when that ID has the string, so no two strings
    share an ID. *)
Theorem X4_ids_contiguous_and_bijective (v : RNN.Vocabulary) :
  consistent v →
  (∀ i, is_Some (RNN.id_to_string v !! i) ↔ i < RNN.len v)
  ∧ (∀ s i, RNN.string_to_id v !! s = Some i ↔ RNN.id_to_string v !! i = Some s)
  ∧ (∀ s1 s2 i, RNN.string_to_id v !! s1 = Some i →
                RNN.string_to_id v !! s2 = Some i → s1 = s2).
Proof.
  intros Hc. pose proof (cons_back _ Hc) as Hback.
  assert (Hinj : ∀ s1 s2 i, RNN.string_to_id v !! s1 = Some i →
                            RNN.string_to_id v !! s2 = Some i → s1 = s2).
  { intros s1 s2 i H1%Hback H2%Hback. congruence. }
  split_and!; [| |exact Hinj].
  - intros i. unfold RNN.len.
    assert (Hdom : dom (RNN.id_to_string v)
                   = (set_seq 0 (size (RNN.id_to_string v)) : gset nat)).
    { apply set_subseteq_size_eq.
      - intros j Hj%elem_of_dom. apply elem_of_set_seq.
        split; [lia|]. by apply (cons_dense _ Hc).
      - by rewrite size_set_seq, size_dom. }
    rewrite <- elem_of_dom, Hdom, elem_of_set_seq. lia.
  - intros s i. split; [apply Hback|]. intros Hi.
    set (l := (map_to_list (RNN.string_to_id v)).*2).
    assert (Hnd : NoDup l).
    { apply NoDup_fmap_2_strong; [|apply NoDup_map_to_list].
      intros [s1 i1] [s2 i2] H1%elem_of_map_to_list H2%elem_of_map_to_list Heq.
      cbn in Heq. subst i2. f_equal. by eapply Hinj. }
    assert (Hsub : ∀ j, j ∈ l → j ∈ elements (dom (RNN.id_to_string v))).
    { intros j Hj. apply list_elem_of_fmap in Hj as ([s' j'] & -> & Hin).
      apply elem_of_map_to_list in Hin. cbn.
      apply elem_of_elements, elem_of_dom. eauto. }
    assert (Hperm : l ≡ₚ elements (dom (RNN.id_to_string v))).
    { apply submseteq_length_Permutation; [by apply NoDup_submseteq|].
      subst l. rewrite length_fmap, length_map_to_list, (cons_size _ Hc).
      rewrite <- size_dom. done. }
    assert (Hil : i ∈ l).
    { rewrite Hperm. apply elem_of_elements, elem_of_dom. eauto. }
    apply list_elem_of_fmap in Hil as ([s' j'] & Heq & Hin). cbn in Heq. subst j'.
    apply elem_of_map_to_list in Hin. pose proof (Hback _ _ Hin). congruence.
Qed.

Lemma X4_ids_contiguous_and_bijective_witness :
  consistent vocab_a ∧
  (∀ i, is_Some (RNN.id_to_string vocab_a !! i) ↔ i < RNN.len vocab_a)
  ∧ (∀ s i, RNN.string_to_id vocab_a !! s = Some i
            ↔ RNN.id_to_string vocab_a !! i = Some s)
  ∧ (∀ s1 s2 i, RNN.string_to_id vocab_a !! s1 = Some i →
                RNN.string_to_id vocab_a !! s2 = Some i → s1 = s2).
Proof.
  assert (Hc : consistent vocab_a).
  { apply add_new_word_consistent;
      [apply Vocabulary_default_consistent | reflexivity]. }
  split; [exact Hc|]. exact (X4_ids_contiguous_and_bijective vocab_a Hc).
Defined.

(** ** Corpus encoder *)

Lemma string_append_assoc (s1 s2 s3 : string) :
  String.append (String.append s1 s2) s3 = String.append s1 (String.append s2 s3).
Proof.
  induction s1 as [|a s1 IH]; [reflexivity|].
  change (String a (String.append (String.append s1 s2) s3)
          = String a (String.append s1 (String.append s2 s3))).
  by rewrite IH.
Qed.

Lemma string_append_nil_r (s : string) : String.append s "" = s.
Proof.
  induction s as [|a s IH]; [reflexivity|].
  change (String a (String.append s "") = String a s). by rewrite IH.
Qed.

Lemma join_app (l1 l2 : list string) :
  join (l1 ++ l2) = String.append (join l1) (join l2).
Proof.
  induction l1 as [|s l1 IH]; [reflexivity|].
  change (String.append s (join (l1 ++ l2))
          = String.append (String.append s (join l1)) (join l2)).
  by rewrite IH, string_append_assoc.
Qed.

Lemma length_concat_chars (lines : list string) :
  length (concat (chars <$> lines)) = String.length (join lines).
Proof.
  induction lines as [|line lines IH]; [reflexivity|].
  cbn [fmap list_fmap concat]. rewrite length_app, length_chars, IH.
  change (join (line :: lines)) with (String.append line (join lines)).
  by rewrite string_length_append.
Qed.

Lemma join_concat_chars (lines : list string) :
  join (concat (chars <$> lines)) = join lines.
Proof.
  induction lines as [|line lines IH]; [reflexivity|].
  cbn [fmap list_fmap concat]. rewrite join_app, join_chars, IH. reflexivity.
Qed.

Lemma encode_lines_extend_spec (lines : list string) : ∀ v acc,
  consistent v →
  ∃ ids v', RNN.encode_lines v true lines acc = Ok (acc ++ ids, v')
            ∧ consistent v'
            ∧ RNN.string_to_id v ⊆ RNN.string_to_id v'
            ∧ Forall2 (λ tok i, RNN.string_to_id v' !! tok = Some i)
                      (concat (chars <$> lines)) ids.
Proof.
  induction lines as [|line rest IH]; intros v acc Hc.
  - exists [], v. cbn. by rewrite app_nil_r.
  - destruct (encode_tokens_extend_spec (chars line) v acc Hc)
      as (ids1 & v1 & Henc & Hc1 & Hsub1 & Hall1).
    destruct (IH v1 (acc ++ ids1) Hc1) as (ids2 & v2 & Hrest & Hc2 & Hsub2 & Hall2).
    exists (ids1 ++ ids2), v2. cbn [RNN.encode_lines]. rewrite Henc.
    cbn [mbind result_bind]. rewrite Hrest, <- app_assoc.
    split_and!; [done|done|by transitivity (RNN.string_to_id v1)|].
    cbn [fmap list_fmap concat]. apply Forall2_app; [|done].
    eapply Forall2_impl; [exact Hall1|].
    intros tok i Hi. exact (lookup_weaken _ _ _ _ Hi Hsub2).
Qed.

(** X5. For a file that was read as its lines, encoding with extension
    enabled, into a fresh vocabulary or into one whose dictionaries agree,
    gives data that holds one ID per character of the file; every ID is
    below the size of the vocabulary returned (a valid class for a model of
    that many classes), and mapping the data back through the returned
    vocabulary gives the text of the file. *)
Theorem X5_text_to_data_extend (lines : list string) (vocab : option RNN.Vocabulary) :
  (∀ v, vocab = Some v → consistent v) →
  ∃ data v', RNN.text_to_data (Some lines) vocab true = Ok (data, v')
    ∧ consistent v'
    ∧ length data = String.length (join lines)
    ∧ Forall (λ i, i < RNN.len v') data
    ∧ RNN.ids_to_text v' data = Ok (join lines).
Proof.
  intros Hvocab.
  assert (Hc : consistent (default RNN.Vocabulary_default vocab)).
  { destruct vocab as [v|]; [by apply Hvocab|apply Vocabulary_default_consistent]. }
  destruct (encode_lines_extend_spec lines _ [] Hc)
    as (data & v' & Henc & Hc' & _ & Hall).
  cbn [app] in Henc. exists data, v'.
  assert (Hdec : mapM (getitem (RNN.id_to_string v')) data
                 = Ok (concat (chars <$> lines))).
  { apply mapM_Ok_Forall2, Forall2_flip.
    eapply Forall2_impl; [exact Hall|].
    intros tok i Hi. cbn. apply getitem_Some. by apply (cons_back _ Hc'). }
  split_and!.
  - unfold RNN.text_to_data. by rewrite bool_decide_eq_true_2 by eauto.
  - done.
  - apply Forall2_length in Hall. by rewrite <- Hall, length_concat_chars.
  - eapply Forall2_Forall_r; [exact Hall|].
    apply Forall_forall. intros tok _ i Hi.
    apply (cons_dense _ Hc'). exists tok. by apply (cons_back _ Hc').
  - unfold RNN.ids_to_text. rewrite Hdec. cbn. by rewrite join_concat_chars.
Qed.

Lemma X5_text_to_data_extend_witness :
  (∀ v, (None : option RNN.Vocabulary) = Some v → consistent v) ∧
  ∃ data v', RNN.text_to_data (Some ["ab"; "ba"]) None true = Ok (data, v')
    ∧ consistent v'
    ∧ length data = String.length (join ["ab"; "ba"])
    ∧ Forall (λ i, i < RNN.len v') data
    ∧ RNN.ids_to_text v' data = Ok (join ["ab"; "ba"]).
Proof.
  assert (H : ∀ v, (None : option RNN.Vocabulary) = Some v → consistent v)
    by (intros v Hv; discriminate Hv).
  split; [exact H|].
  exact (X5_text_to_data_extend ["ab"; "ba"] None H).
Defined.

(** X6. For a file that was read as its lines, encoding into a given
    vocabulary without extension returns the vocabulary as it was given: a
    character the vocabulary holds is encoded by its ID, any other by the
    unknown ID. *)
Theorem X6_text_to_data_closed (lines : list string) (v : RNN.Vocabulary) :
  RNN.text_to_data (Some lines) (Some v) false
  = Ok ((λ c, default (RNN.unk_id v) (RNN.string_to_id v !! c))
          <$> concat (chars <$> lines), v).
Proof.
  assert (Htok : ∀ tokens acc,
            RNN.encode_tokens v false tokens acc
            = Ok (acc ++ ((λ c, default (RNN.unk_id v) (RNN.string_to_id v !! c))
                            <$> tokens), v)).
  { induction tokens as [|tok rest IH]; intros acc.
    - cbn. by rewrite app_nil_r.
    - cbn [RNN.encode_tokens].
      destruct (RNN.string_to_id v !! tok) as [i|] eqn:Hs.
      + rewrite (get_idx_known _ _ i) by done. cbn [mbind result_bind].
        rewrite IH, <- app_assoc. cbn. by rewrite Hs.
      + rewrite get_idx_closed by done. cbn [mbind result_bind].
        rewrite IH, <- app_assoc. cbn. by rewrite Hs. }
  assert (Hlines : ∀ ls acc,
            RNN.encode_lines v false ls acc
            = Ok (acc ++ ((λ c, default (RNN.unk_id v) (RNN.string_to_id v !! c))
                            <$> concat (chars <$> ls)), v)).
  { induction ls as [|line rest IH]; intros acc.
    - cbn. by rewrite app_nil_r.
    - cbn [RNN.encode_lines]. rewrite Htok. cbn [mbind result_bind].
      rewrite IH, <- app_assoc. cbn [fmap list_fmap concat].
      by rewrite fmap_app. }
  unfold RNN.text_to_data. rewrite bool_decide_eq_true_2 by eauto.
  cbn [py_assert mbind result_bind default]. apply Hlines.
Qed.

(** ** Batcher *)

Section BatcherMore.
Import RNN.

(** X7. For a pad ID that the int64 tensor holds, [create_batch] raises
    exactly when the lane count or the window length is zero, and then
    [ZeroDivisionError]: the first floor division fails for [bsz = 0], the
    second, after the padding, for [bptt_len = 0]; with both positive, the
    padding, the view and the slices fit. *)
Theorem X7_create_batch_fails_only_on_zero (data : list nat) (bsz W pad : nat) (e : exn) :
  (Z.of_nat pad < 2 ^ 63)%Z →
  create_batch data bsz W pad = Raise e
  ↔ e = ZeroDivisionError ∧ (bsz = 0 ∨ W = 0).
Proof.
  intros _. unfold create_batch. split.
  - destruct (decide (bsz = 0)) as [->|Hb].
    { cbn. intros [= <-]. eauto. }
    destruct (decide (W = 0)) as [->|HW].
    + unfold create_batch_body, new_full.
      rewrite floordiv_Ok by lia. cbn [mbind result_bind].
      assert (HL : length data ≤ (length data / bsz + 1) * bsz).
      { pose proof (Nat.div_mod_eq (length data) bsz).
        pose proof (Nat.mod_upper_bound (length data) bsz). nia. }
      rewrite setslice_prefix_replicate by done. cbn [mbind result_bind].
      rewrite view_Ok by (rewrite length_app, length_replicate; lia).
      cbn. intros [= <-]. eauto.
    + rewrite create_batch_body_eq by lia. cbn. discriminate.
  - intros [-> [-> | ->]]; [reflexivity|].
    destruct (decide (bsz = 0)) as [->|Hb]; [reflexivity|].
    unfold create_batch_body, new_full.
    rewrite floordiv_Ok by lia. cbn [mbind result_bind].
    assert (HL : length data ≤ (length data / bsz + 1) * bsz).
    { pose proof (Nat.div_mod_eq (length data) bsz).
      pose proof (Nat.mod_upper_bound (length data) bsz). nia. }
    rewrite setslice_prefix_replicate by done. cbn [mbind result_bind].
    rewrite view_Ok by (rewrite length_app, length_replicate; lia).
    reflexivity.
Qed.

Lemma X7_create_batch_fails_only_on_zero_witness :
  (Z.of_nat 0 < 2 ^ 63)%Z ∧
  create_batch [2; 3; 4; 3; 2; 4] 2 0 0 = Raise ZeroDivisionError.
Proof.
  split; [reflexivity|].
  apply (X7_create_batch_fails_only_on_zero [2; 3; 4; 3; 2; 4] 2 0 0
           ZeroDivisionError); [reflexivity|].
  split; [reflexivity|by right].
Defined.

Lemma length_window_rows (p : list (list nat)) (bsz W pad i : nat) :
  0 < W → i * W ≤ length p →
  length (window_rows p bsz W pad i) = (W + 1) `min` (length p + 1 - i * W).
Proof.
  intros HW Hi. unfold window_rows, slice.
  destruct (decide (i = 0)) as [->|Hi0]; cbn [length].
  - rewrite length_take, length_drop. lia.
  - rewrite length_take, length_drop. nia.
Qed.

(** X8. Every window has [bsz] lanes in every row and between 1 and
    [bptt_len + 1] rows: every window but the last has exactly
    [bptt_len + 1], and the last has [segment_len mod bptt_len + 1] — a
    single row when [bptt_len] divides [segment_len]. *)
Theorem X8_window_sizes (data : list nat) (bsz W pad : nat) :
  0 < bsz → 0 < W →
  ∃ bs, create_batch data bsz W pad = Ok bs
    ∧ ∀ i b, bs !! i = Some b →
        ncols b = bsz
        ∧ Forall (λ r, length r = bsz) (rows b)
        ∧ 1 ≤ shape0 b ≤ W + 1
        ∧ (i + 1 < length bs → shape0 b = W + 1)
        ∧ (i + 1 = length bs →
           shape0 b = (length data / bsz + 1) `mod` W + 1).
Proof.
  intros Hb HW. unfold create_batch.
  rewrite (create_batch_body_eq data bsz W pad Hb HW). cbv zeta.
  set (L := length data). set (seg := L / bsz + 1).
  set (flat := data ++ replicate (seg * bsz - L) pad).
  assert (HL : L ≤ seg * bsz).
  { subst seg. pose proof (Nat.div_mod_eq L bsz).
    pose proof (Nat.mod_upper_bound L bsz). nia. }
  assert (Hflat : length flat = bsz * seg).
  { subst flat. rewrite length_app, length_replicate. fold L. lia. }
  destruct (grid_shape flat bsz seg Hflat) as (Hc & Hr & Hall).
  cbv zeta in Hc, Hr, Hall. unfold shape0 in Hr.
  set (grid := t _) in *. set (p := rows grid) in *.
  pose proof (Nat.div_mod_eq seg W) as Hdm.
  pose proof (Nat.mod_upper_bound seg W) as Hmod.
  eexists. split; [reflexivity|]. cbn [batches].
  intros i b Hib. rewrite length_fmap, length_seq.
  apply list_lookup_fmap_Some in Hib as (j & -> & Hj).
  apply lookup_seq in Hj as [-> Hi]. cbn [ncols rows shape0 Nat.add].
  assert (HiW : i * W ≤ length p) by (rewrite Hr; nia).
  unfold shape0. cbn [rows]. rewrite length_window_rows by done. rewrite Hr.
  split_and!; [done| |lia|lia|nia|nia].
  apply Forall_window_rows; [by rewrite length_replicate|done].
Qed.

Lemma X8_window_sizes_witness :
  0 < 2 ∧ 0 < 2 ∧
  ∃ bs, create_batch [2; 3; 4; 3; 2; 4] 2 2 0 = Ok bs
    ∧ ∀ i b, bs !! i = Some b →
        ncols b = 2
        ∧ Forall (λ r, length r = 2) (rows b)
        ∧ 1 ≤ shape0 b ≤ 2 + 1
        ∧ (i + 1 < length bs → shape0 b = 2 + 1)
        ∧ (i + 1 = length bs →
           shape0 b = (length [2; 3; 4; 3; 2; 4] / 2 + 1) `mod` 2 + 1).
Proof.
  split; [lia|]. split; [lia|].
  apply (X8_window_sizes [2; 3; 4; 3; 2; 4] 2 2 0); lia.
Defined.

End BatcherMore.

Section BatcherLayout.
Import RNN.

Lemma transpose_rows_length (n : nat) (m : list (list nat)) :
  Forall (λ r, length r = n) m →
  Forall (λ r, length r = length m) (transpose n m).
Proof.
  intros Hm. apply Forall_lookup. intros i r Hr.
  assert (i < n).
  { apply lookup_lt_Some in Hr. by rewrite length_transpose in Hr. }
  rewrite transpose_lookup in Hr by done. injection Hr as <-.
  by rewrite length_fmap.
Qed.

(** Transposing twice gives the rows back. *)
Lemma transpose_involutive (n : nat) (m : list (list nat)) :
  Forall (λ r, length r = n) m →
  transpose (length m) (transpose n m) = m.
Proof.
  intros Hm. pose proof (transpose_rows_length n m Hm) as Hrows.
  apply list_eq. intros i.
  destruct (decide (i < length m)) as [Hi|Hi].
  - rewrite transpose_lookup by done.
    destruct (lookup_lt_is_Some_2 m i Hi) as [r Hr]. rewrite Hr. f_equal.
    assert (Hlen : length r = n)
      by exact (Forall_lookup_1 (λ r, length r = n) m i r Hm Hr).
    apply list_eq. intros j. rewrite list_lookup_fmap.
    destruct (decide (j < n)) as [Hj|Hj].
    + rewrite transpose_lookup by done. cbn.
      rewrite list_lookup_fmap, Hr. cbn.
      destruct (lookup_lt_is_Some_2 r j) as [x Hx]; [lia|]. by rewrite Hx.
    + rewrite (lookup_ge_None_2 (transpose n m))
        by (rewrite length_transpose by done; lia).
      cbn. symmetry. apply lookup_ge_None_2. lia.
  - rewrite !lookup_ge_None_2; [done|lia|].
    rewrite length_transpose by done. lia.
Qed.

(** X9. Nothing is lost or reordered by batching: dropping the first row of
    every window, concatenating the rest, transposing back to lanes and
    flattening gives the corpus, followed only by pad IDs. *)
Theorem X9_corpus_recovered_from_windows (data : list nat) (bsz W pad : nat) :
  0 < bsz → 0 < W →
  ∃ bs, create_batch data bsz W pad = Ok bs
    ∧ let lanes := transpose bsz (concat ((λ b, tail (rows b)) <$> bs)) in
      take (length data) (concat lanes) = data
      ∧ drop (length data) (concat lanes)
        = replicate (bsz * (length data / bsz + 1) - length data) pad.
Proof.
  intros Hb HW. unfold create_batch.
  rewrite (create_batch_body_eq data bsz W pad Hb HW). cbv zeta.
  set (L := length data). set (seg := L / bsz + 1).
  set (flat := data ++ replicate (seg * bsz - L) pad).
  assert (HL : L ≤ seg * bsz).
  { subst seg. pose proof (Nat.div_mod_eq L bsz).
    pose proof (Nat.mod_upper_bound L bsz). nia. }
  assert (Hflat : length flat = bsz * seg).
  { subst flat. rewrite length_app, length_replicate. fold L. lia. }
  set (chunks := (λ j, take seg (drop (j * seg) flat)) <$> seq 0 bsz).
  assert (Hchunks : Forall (λ r, length r = seg) chunks).
  { apply Forall_fmap, Forall_forall. intros j Hj%elem_of_seq. cbn.
    rewrite length_take_le; [done|]. rewrite length_drop. nia. }
  assert (Hnchunks : length chunks = bsz)
    by (subst chunks; by rewrite length_fmap, length_seq).
  eexists. split; [reflexivity|]. cbn [batches fmap].
  rewrite <- list_fmap_compose.
  assert (Hcover : concat ((λ b, tail (rows b))
                             ∘ (λ i, {| ncols := bsz;
                                        rows := window_rows
                                          (rows (t {| ncols := seg; rows := chunks |}))
                                          bsz W pad i |})
                           <$> seq 0 (seg / W + 1))
                   = transpose seg chunks).
  { rewrite (list_fmap_compose
               (window_rows (rows (t {| ncols := seg; rows := chunks |})) bsz W pad)
               tail).
    rewrite windows_cover; [done|done|]. unfold t. cbn [rows ncols].
    rewrite length_transpose by done.
    pose proof (Nat.div_mod_eq seg W). pose proof (Nat.mod_upper_bound seg W).
    nia. }
  fold chunks. rewrite Hcover. rewrite <- Hnchunks at 1 2.
  rewrite transpose_involutive by done.
  assert (Hconcat : concat chunks = flat).
  { subst chunks. rewrite concat_chunks. apply take_ge. lia. }
  rewrite Hconcat. subst flat.
  rewrite (take_app_length' _ _ L), (drop_app_length' _ _ L) by done.
  split; [done|]. f_equal. subst seg. lia.
Qed.

Lemma X9_corpus_recovered_from_windows_witness :
  0 < 2 ∧ 0 < 2 ∧
  ∃ bs, create_batch [2; 3; 4; 3; 2; 4] 2 2 0 = Ok bs
    ∧ let lanes := transpose 2 (concat ((λ b, tail (rows b)) <$> bs)) in
      take (length [2; 3; 4; 3; 2; 4]) (concat lanes) = [2; 3; 4; 3; 2; 4]
      ∧ drop (length [2; 3; 4; 3; 2; 4]) (concat lanes)
        = replicate (2 * (length [2; 3; 4; 3; 2; 4] / 2 + 1)
                     - length [2; 3; 4; 3; 2; 4]) 0.
Proof.
  split; [lia|]. split; [lia|].
  apply (X9_corpus_recovered_from_windows [2; 3; 4; 3; 2; 4] 2 2 0); lia.
Defined.

End BatcherLayout.

Section BatcherShift.
Import RNN.

(** Every window is a slice of [bptt_len + 1] rows of the grid with the pad
    row put in front of it. *)
Lemma window_rows_shifted (p : list (list nat)) (bsz W pad i : nat) :
  0 < W →
  window_rows p bsz W pad i = take (W + 1) (drop (i * W) (replicate bsz pad :: p)).
Proof.
  intros HW. unfold window_rows, slice.
  destruct (decide (i = 0)) as [->|Hi].
  - rewrite Nat.sub_0_r, !drop_0. replace (W + 1) with (S W) by lia. done.
  - replace ((i + 1) * W - (i * W - 1)) with (W + 1) by nia.
    replace (i * W) with (S (i * W - 1)) at 2 by nia. done.
Qed.

Lemma window_input_rows (p : list (list nat)) (bsz W pad i : nat) :
  0 < W → i * W ≤ length p →
  let w := window_rows p bsz W pad i in
  take (length w - 1) w
  = take W (drop (i * W) (take (length p) (replicate bsz pad :: p))).
Proof.
  intros HW Hi w. subst w.
  rewrite length_window_rows by done. rewrite window_rows_shifted by done.
  rewrite take_take.
  replace (take (length p) (replicate bsz pad :: p))
    with (take (i * W + (length p - i * W)) (replicate bsz pad :: p))
    by (f_equal; lia).
  rewrite <- take_drop_commute, take_take. f_equal. lia.
Qed.

(** X10. The training loop feeds [batch[:-1]] and predicts [batch[1:]].
    Over all windows the targets are the rows of the padded grid of the
    corpus (row [t] holds element [b * segment_len + t] of the corpus for
    every lane [b], or the pad ID past its end), each exactly once and in
    order, and the inputs are the same rows delayed by one step: the pad
    row first, then every grid row but the last. *)
Theorem X10_inputs_are_targets_delayed (data : list nat) (bsz W pad : nat) :
  0 < bsz → 0 < W →
  ∃ bs, create_batch data bsz W pad = Ok bs
    ∧ concat ((λ b, rows (slice_rows 1 (shape0 b) b)) <$> bs)
      = padded_grid data bsz pad
    ∧ concat ((λ b, rows (slice_rows 0 (shape0 b - 1) b)) <$> bs)
      = take (length data / bsz + 1)
          (replicate bsz pad :: padded_grid data bsz pad).
Proof.
  intros Hb HW.
  pose proof (grid_rows data bsz pad Hb) as Hgrid. cbv zeta in Hgrid.
  unfold create_batch.
  rewrite (create_batch_body_eq data bsz W pad Hb HW). cbv zeta.
  set (L := length data) in *. set (seg := L / bsz + 1) in *.
  set (flat := data ++ replicate (seg * bsz - L) pad).
  assert (HL : L ≤ seg * bsz).
  { subst seg. pose proof (Nat.div_mod_eq L bsz).
    pose proof (Nat.mod_upper_bound L bsz). nia. }
  assert (Hflat : length flat = bsz * seg).
  { subst flat. rewrite length_app, length_replicate. fold L. lia. }
  destruct (grid_shape flat bsz seg Hflat) as (Hc & Hr & Hall).
  cbv zeta in Hc, Hr, Hall. unfold shape0 in Hr.
  set (grid := t _) in *. set (p := rows grid) in *.
  pose proof (Nat.div_mod_eq seg W) as Hdm.
  assert (Hmod : seg `mod` W < W) by (apply Nat.mod_upper_bound; lia).
  assert (Hcover : seg ≤ (seg / W + 1) * W) by nia.
  eexists. split; [reflexivity|].
  cbn [batches]. rewrite <- Hgrid. rewrite <- !list_fmap_compose. split.
  - transitivity (concat ((λ i, take W (drop (i * W) p)) <$> seq 0 (seg / W + 1))).
    + f_equal. apply list_fmap_ext. intros k i _.
      unfold compose, slice_rows, shape0. cbn [rows]. fold p. unfold slice.
      rewrite take_ge by (rewrite length_drop; lia).
      by rewrite <- (tail_window_rows p bsz W pad i).
    + rewrite concat_chunks. apply take_ge.
      change (length p ≤ (seg / W + 1) * W). by rewrite Hr.
  - set (q := take seg (replicate bsz pad :: p)).
    transitivity (concat ((λ i, take W (drop (i * W) q)) <$> seq 0 (seg / W + 1))).
    + f_equal. apply list_fmap_ext. intros k i Hi%lookup_seq.
      unfold compose, slice_rows, shape0. cbn [rows]. fold p. unfold slice.
      rewrite Nat.sub_0_r, drop_0. subst q. rewrite <- Hr.
      apply window_input_rows; [done|]. rewrite Hr.
      destruct Hi as [-> Hi]. cbn [Nat.add]. nia.
    + rewrite concat_chunks. apply take_ge. subst q.
      rewrite length_take. cbn [length]. lia.
Qed.

Lemma X10_inputs_are_targets_delayed_witness :
  0 < 2 ∧ 0 < 2 ∧
  ∃ bs, create_batch [2; 3; 4; 3; 2; 4] 2 2 0 = Ok bs
    ∧ concat ((λ b, rows (slice_rows 1 (shape0 b) b)) <$> bs)
      = [[2; 2]; [3; 4]; [4; 0]; [3; 0]]
    ∧ concat ((λ b, rows (slice_rows 0 (shape0 b - 1) b)) <$> bs)
      = [[0; 0]; [2; 2]; [3; 4]; [4; 0]].
Proof.
  split; [lia|]. split; [lia|].
  apply (X10_inputs_are_targets_delayed [2; 3; 4; 3; 2; 4] 2 2 0); lia.
Defined.

End BatcherShift.

Section BatcherCells.
Import RNN.

(** X11. The batcher invents no ID: every cell of every window is an ID of
    the corpus or the pad ID.  So if the corpus IDs and the pad ID are below
    a bound — the class count of a model — every cell is. *)
Theorem X11_windows_hold_corpus_or_pad (data : list nat) (bsz W pad : nat) :
  0 < bsz → 0 < W →
  ∃ bs, create_batch data bsz W pad = Ok bs
    ∧ Forall (λ b, Forall (Forall (λ x, x ∈ data ∨ x = pad)) (rows b)) bs
    ∧ ∀ n, Forall (λ x, x < n) data → pad < n →
           Forall (λ b, Forall (Forall (λ x, x < n)) (rows b)) bs.
Proof.
  intros Hb HW. unfold create_batch.
  rewrite (create_batch_body_eq data bsz W pad Hb HW). cbv zeta.
  set (L := length data). set (seg := L / bsz + 1).
  set (flat := data ++ replicate (seg * bsz - L) pad).
  assert (HL : L ≤ seg * bsz).
  { subst seg. pose proof (Nat.div_mod_eq L bsz).
    pose proof (Nat.mod_upper_bound L bsz). nia. }
  assert (Hflat : length flat = bsz * seg).
  { subst flat. rewrite length_app, length_replicate. fold L. lia. }
  set (chunks := (λ j, take seg (drop (j * seg) flat)) <$> seq 0 bsz).
  assert (Hchunks : Forall (λ r, length r = seg) chunks).
  { apply Forall_fmap, Forall_forall. intros j Hj%elem_of_seq. cbn.
    rewrite length_take_le; [done|]. rewrite length_drop. nia. }
  set (Q := λ x : nat, x ∈ data ∨ x = pad).
  assert (Hgrid : Forall (Forall Q) (transpose seg chunks)).
  { apply Forall_lookup. intros i row Hrow.
    assert (Hi : i < seg).
    { apply lookup_lt_Some in Hrow. by rewrite length_transpose in Hrow. }
    rewrite transpose_lookup in Hrow by done. injection Hrow as <-.
    apply Forall_fmap, Forall_forall. intros r Hr. cbn.
    apply list_elem_of_fmap in Hr as (j & -> & Hj%elem_of_seq).
    rewrite lookup_take_lt, lookup_drop by done.
    destruct (lookup_lt_is_Some_2 flat (j * seg + i)) as [x Hx]; [nia|].
    rewrite Hx. cbn. apply list_elem_of_lookup_2 in Hx. subst flat.
    apply elem_of_app in Hx as [Hx|Hx]; [by left|].
    apply elem_of_replicate in Hx as [-> _]. by right. }
  assert (Hwin : Forall (λ b, Forall (Forall Q) (rows b))
            ((λ i, {| ncols := bsz;
                      rows := window_rows
                                (rows (t {| ncols := seg; rows := chunks |}))
                                bsz W pad i |}) <$> seq 0 (seg / W + 1))).
  { apply Forall_fmap, Forall_forall. intros i _. cbn [rows compose].
    apply Forall_window_rows; [|exact Hgrid].
    apply Forall_forall. intros x Hx.
    apply elem_of_replicate in Hx as [-> _]. by right. }
  eexists. split; [reflexivity|]. cbn [batches]. fold chunks.
  split; [exact Hwin|].
  intros n Hdata Hpad. eapply Forall_impl; [exact Hwin|].
  intros b Hrows. eapply Forall_impl; [exact Hrows|].
  intros row Hcells. eapply Forall_impl; [exact Hcells|].
  intros x [Hx| ->]; [|done].
  by apply (proj1 (Forall_forall _ _) Hdata).
Qed.

Lemma X11_windows_hold_corpus_or_pad_witness :
  0 < 2 ∧ 0 < 2 ∧
  ∃ bs, create_batch [2; 3; 4; 3; 2; 4] 2 2 0 = Ok bs
    ∧ Forall (λ b, Forall (Forall (λ x, x ∈ [2; 3; 4; 3; 2; 4] ∨ x = 0)) (rows b)) bs
    ∧ ∀ n, Forall (λ x, x < n) [2; 3; 4; 3; 2; 4] → 0 < n →
           Forall (λ b, Forall (Forall (λ x, x < n)) (rows b)) bs.
Proof.
  split; [lia|]. split; [lia|].
  apply (X11_windows_hold_corpus_or_pad [2; 3; 4; 3; 2; 4] 2 2 0); lia.
Defined.

End BatcherCells.

(** ** Recurrent model and training step *)

Section ModelMore.
Import RNN.
Context {H C Logits : Type}.

(** X12. On a well-formed input of at least one time step whose IDs are all
    classes of the model, with a state of as many lanes as the input,
    [forward] returns one row of logits per cell of the input — [T * B]
    rows — and a state of the same lane count. *)
Theorem X12_forward_shape (m : LSTMModel H C Logits) (input : Tensor2)
    (hs : list H) (cs : list C) :
  Forall (λ r, length r = ncols input) (rows input) →
  Forall (Forall (λ i, i < num_classes m)) (rows input) →
  0 < shape0 input →
  length hs = ncols input → length cs = ncols input →
  ∃ logits hs' cs', forward m input (hs, cs) = Ok (logits, (hs', cs'))
    ∧ length logits = shape0 input * ncols input
    ∧ length hs' = ncols input ∧ length cs' = ncols input.
Proof.
  intros Hwf Hids Ht Hh Hc. unfold forward. cbn [fst snd].
  rewrite bool_decide_eq_true_2 by done.
  rewrite bool_decide_eq_false_2 by lia.
  rewrite bool_decide_eq_true_2 by done. cbn [negb].
  destruct (forward_rows_shape m (ncols input) (rows input) hs cs Hwf Hh Hc)
    as (o & hs' & cs' & -> & Ho & Hh' & Hc').
  by exists o, hs', cs'.
Qed.

End ModelMore.

Lemma X12_forward_shape_witness :
  Forall (λ r, length r = 2) [[2; 2]; [0; 1]] ∧
  0 < 2 ∧
  ∃ logits hs' cs',
    RNN.forward constant_model {| RNN.ncols := 2; RNN.rows := [[2; 2]; [0; 1]] |}
      ([tt; tt], [tt; tt]) = Ok (logits, (hs', cs'))
    ∧ length logits = 2 * 2
    ∧ length hs' = 2 ∧ length cs' = 2.
Proof.
  assert (Hwf : Forall (λ r, length r = 2) [[2; 2]; [0; 1]])
    by (by repeat constructor).
  split; [exact Hwf|]. split; [lia|].
  apply (X12_forward_shape constant_model
           {| RNN.ncols := 2; RNN.rows := [[2; 2]; [0; 1]] |} [tt; tt] [tt; tt]);
    [exact Hwf | | cbn; lia | reflexivity | reflexivity].
  unfold constant_model. cbn. repeat constructor; lia.
Defined.

(** X13. An iteration that reports never completes.  When
    [idx % report_every == 0] — at [idx = 0] of every epoch — the loop body
    calls [complete(model, prompt, 128, sample=True)], and sampled decoding
    cannot take a second step: whatever the batches, the model, the
    vocabulary and the carried state, the iteration raises. *)
Theorem X13_reporting_iteration_never_completes {H C Logits Rng : Type}
    (topk1 : Logits → nat) (multinomial : Rng → Logits → nat * Rng)
    (optimizer_step : RNN.LSTMModel H C Logits → list Logits → list nat
                      → RNN.LSTMModel H C Logits)
    (batches : list RNN.Tensor2) (m : RNN.LSTMModel H C Logits)
    (vocab : RNN.Vocabulary) (g : Rng)
    (ns : gmap string (RNN.pyval H C)) (idx : nat) :
  idx `mod` RNN.report_every = 0 →
  raises (RNN.train_step topk1 multinomial optimizer_step batches m vocab g ns idx).
Proof.
  intros Hreport. unfold raises, RNN.train_step.
  destruct (RNN.list_getitem batches idx) as [batch|e]; cbn [mbind result_bind];
    [|by eexists].
  destruct (RNN.load_name ns "state_h" ≫= RNN.as_hidden) as [h|e];
    cbn [mbind result_bind]; [|by eexists].
  destruct (RNN.load_name ns "state_c" ≫= RNN.as_cell) as [c|e];
    cbn [mbind result_bind]; [|by eexists].
  cbn [RNN.custom_detach].
  destruct (decide (RNN.ncols (RNN.slice_rows 0 (RNN.shape0 batch - 1) batch)
                    ≠ length h));
    [destruct (RNN.load_name ns "state") as [state|e]; cbn [mbind result_bind];
       [|by eexists]
    |cbn [mbind result_bind]].
  all: destruct (RNN.forward m _ (h, c)) as [[output [h' c']]|e];
    cbn [mbind result_bind]; [|by eexists].
  all: destruct (RNN.cross_entropy_check m _) as [[]|e]; cbn [mbind result_bind];
    [|by eexists].
  all: rewrite decide_True by done.
  all: destruct (complete_sampled_raises topk1 multinomial
              (optimizer_step m output
                 (concat (RNN.rows (RNN.slice_rows 1 (RNN.shape0 batch) batch))))
              vocab RNN.prompt 126 g) as [e He].
  all: change 128 with (S (S 126)); rewrite He; by eexists.
Qed.

Lemma X13_reporting_iteration_never_completes_witness :
  0 `mod` RNN.report_every = 0 ∧
  RNN.train_step (constant_topk1 2) no_sampler (λ m _ _, m)
    [ {| RNN.ncols := 2; RNN.rows := [[0; 0]; [2; 2]; [3; 4]; [4; 0]] |};
      {| RNN.ncols := 2; RNN.rows := [[4; 0]; [3; 0]] |} ]
    prompt_model prompt_vocab tt (RNN.epoch_start prompt_model 2 ∅) 0
  = Raise TypeError ∧
  raises (RNN.train_step (constant_topk1 2) no_sampler (λ m _ _, m)
    [ {| RNN.ncols := 2; RNN.rows := [[0; 0]; [2; 2]; [3; 4]; [4; 0]] |};
      {| RNN.ncols := 2; RNN.rows := [[4; 0]; [3; 0]] |} ]
    prompt_model prompt_vocab tt (RNN.epoch_start prompt_model 2 ∅) 0).
Proof.
  split; [reflexivity|]. split; [vm_compute; reflexivity|].
  apply (X13_reporting_iteration_never_completes (constant_topk1 2) no_sampler
           (λ m _ _, m)). reflexivity.
Defined.

(** ** Decoder *)

Section DecoderMore.
Import RNN.
Context {H C Logits Rng : Type}.
Context (topk1 : Logits → nat) (multinomial : Rng → Logits → nat * Rng).
Context (m : LSTMModel H C Logits) (vocab : Vocabulary).

Lemma decode_loop_S (sample : bool) (k : nat) x st g out :
  decode_loop topk1 multinomial m vocab sample (S k) x st g out
  = ('(logits, st') ← model_call m x st;
     row ← single_item logits;
     if sample then
       let '(ix, g') := multinomial g row in
       tok ← getitem (id_to_string vocab) ix;
       decode_loop topk1 multinomial m vocab sample k (XInt ix) st' g'
                   (out ++ [tok])
     else
       let ix := topk1 row in
       tok ← getitem (id_to_string vocab) ix;
       decode_loop topk1 multinomial m vocab sample k
                   (XTensor (scalar_tensor ix)) st' g (out ++ [tok])).
Proof. reflexivity. Qed.

(** A run of the decoding loop that succeeds with one more iteration also
    succeeds without it, and the longer output is the shorter one with one
    token of the vocabulary appended. *)
Lemma decode_loop_prefix (sample : bool) (k : nat) :
  ∀ x st g out out',
  decode_loop topk1 multinomial m vocab sample (S k) x st g out = Ok out' →
  ∃ out_k tok,
    decode_loop topk1 multinomial m vocab sample k x st g out = Ok out_k
    ∧ out' = out_k ++ [tok]
    ∧ ∃ i, id_to_string vocab !! i = Some tok.
Proof.
  induction k as [|k IH]; intros x st g out out' Hrun.
  - rewrite decode_loop_S in Hrun.
    destruct (model_call m x st) as [[logits st']|e]; [|discriminate].
    cbn [mbind result_bind] in Hrun.
    destruct (single_item logits) as [row|e]; [|discriminate].
    cbn [mbind result_bind] in Hrun.
    destruct sample.
    + destruct (multinomial g row) as [ix g'].
      destruct (id_to_string vocab !! ix) as [tok|] eqn:Htok;
        [rewrite (getitem_Some _ _ _ Htok) in Hrun
        |by rewrite (getitem_None _ _ Htok) in Hrun].
      cbn in Hrun. injection Hrun as <-. exists out, tok. eauto.
    + destruct (id_to_string vocab !! topk1 row) as [tok|] eqn:Htok;
        [rewrite (getitem_Some _ _ _ Htok) in Hrun
        |by rewrite (getitem_None _ _ Htok) in Hrun].
      cbn in Hrun. injection Hrun as <-. exists out, tok. eauto.
  - rewrite decode_loop_S in Hrun. rewrite decode_loop_S.
    destruct (model_call m x st) as [[logits st']|e]; [|discriminate].
    cbn [mbind result_bind] in Hrun |- *.
    destruct (single_item logits) as [row|e]; [|discriminate].
    cbn [mbind result_bind] in Hrun |- *.
    destruct sample.
    + destruct (multinomial g row) as [ix g'].
      destruct (getitem (id_to_string vocab) ix) as [tok|e]; [|discriminate].
      cbn [mbind result_bind] in Hrun |- *. by apply IH.
    + destruct (getitem (id_to_string vocab) (topk1 row)) as [tok|e];
        [|discriminate].
      cbn [mbind result_bind] in Hrun |- *. by apply IH.
Qed.

(** The prompt stage of [complete], before the loop: either it raises, or
    it hands the loop an input, a state, a generator state and the first
    token, whatever [steps] is. *)
Lemma complete_tokens_start (prompt : string) (sample : bool) (g : Rng) :
  (∃ e, ∀ steps,
     complete_tokens topk1 multinomial m vocab prompt steps sample g = Raise e)
  ∨ (∃ x st g' out, ∀ steps,
       complete_tokens topk1 multinomial m vocab prompt steps sample g
       = decode_loop topk1 multinomial m vocab sample steps x st g' out).
Proof.
  unfold complete_tokens.
  destruct (mapM (getitem (string_to_id vocab)) (chars prompt)) as [ids|e];
    [|left; by exists e].
  cbn [mbind result_bind].
  destruct (forward m _ (init_hidden m 1)) as [[logits st]|e];
    [|left; by exists e].
  cbn [mbind result_bind].
  destruct (last_item logits) as [row|e]; [|left; by exists e].
  cbn [mbind result_bind].
  destruct (if sample then multinomial g row else (topk1 row, g)) as [ix g'].
  destruct (getitem (id_to_string vocab) ix) as [tok|e]; [|left; by exists e].
  cbn [mbind result_bind]. right. by eexists _, _, _, _.
Qed.

End DecoderMore.

(** X14. Sampled decoding cannot take a second step: the first iteration of
    the loop leaves in [x] the Python integer that [.item()] returned, and
    the model rejects it in the next.  For a non-empty prompt of known
    characters and a sampler that draws classes of the vocabulary,
    [complete(..., sample=True)] returns [steps + 1] tokens when [steps] is
    0 or 1 and raises [TypeError] for every larger [steps]. *)
Theorem X14_sampled_decoding_stops_at_two {H C Logits Rng : Type}
    (topk1 : Logits → nat) (multinomial : Rng → Logits → nat * Rng)
    (m : RNN.LSTMModel H C Logits) (vocab : RNN.Vocabulary)
    (prompt : string) (steps : nat) (g : Rng) :
  prompt ≠ "" →
  Forall (λ c, ∃ i, RNN.string_to_id vocab !! c = Some i ∧ i < RNN.num_classes m)
         (chars prompt) →
  (∀ g' row, (multinomial g' row).1 < RNN.num_classes m) →
  (∀ i, i < RNN.num_classes m → is_Some (RNN.id_to_string vocab !! i)) →
  (steps ≤ 1 →
     ∃ out, RNN.complete_tokens topk1 multinomial m vocab prompt steps true g = Ok out
            ∧ length out = steps + 1)
  ∧ (2 ≤ steps →
     RNN.complete topk1 multinomial m vocab prompt steps true g = Raise TypeError).
Proof.
  intros Hne Hprompt Hdraw Hvocab.
  destruct (mapM_getitem_present _ _ _ Hprompt) as (ids & Hids & Hlen & Hall).
  assert (Hids_ne : ids ≠ []).
  { destruct prompt; [done|]. by destruct ids. }
  destruct (forward_one_lane m ids (RNN.h0 m) (RNN.c0 m) Hids_ne Hall)
    as (logits & h' & c' & Hfw & Hlog).
  assert (∃ row, last logits = Some row) as [row Hrow].
  { destruct logits as [|r logits] using rev_ind.
    - destruct ids; [done|discriminate].
    - exists r. by rewrite last_snoc. }
  destruct (multinomial g row) as [ix g1] eqn:Hdraw1.
  pose proof (Hdraw g row) as Hix. rewrite Hdraw1 in Hix. cbn in Hix.
  destruct (Hvocab ix Hix) as [tok Htok].
  assert (Hstart : RNN.complete_tokens topk1 multinomial m vocab prompt steps true g
            = RNN.decode_loop topk1 multinomial m vocab true steps
                (RNN.XTensor (RNN.scalar_tensor ix)) ([h'], [c']) g1 [tok]).
  { unfold RNN.complete_tokens. rewrite Hids. cbn [mbind result_bind].
    unfold RNN.init_hidden. cbn [replicate]. rewrite Hfw.
    cbn [mbind result_bind]. unfold RNN.last_item. rewrite Hrow.
    cbn [mbind result_bind]. rewrite Hdraw1.
    by rewrite (getitem_Some _ _ _ Htok). }
  destruct (forward_one_lane m [ix] h' c') as (logits2 & h2 & c2 & Hfw2 & Hlog2);
    [done|by repeat constructor|].
  cbn [fmap list_fmap] in Hfw2.
  destruct logits2 as [|row2 [|? ?]]; try done.
  destruct (multinomial g1 row2) as [ix2 g2] eqn:Hdraw2.
  pose proof (Hdraw g1 row2) as Hix2. rewrite Hdraw2 in Hix2. cbn in Hix2.
  destruct (Hvocab ix2 Hix2) as [tok2 Htok2].
  assert (Hstep : ∀ k,
            RNN.decode_loop topk1 multinomial m vocab true (S k)
              (RNN.XTensor (RNN.scalar_tensor ix)) ([h'], [c']) g1 [tok]
            = RNN.decode_loop topk1 multinomial m vocab true k
                (RNN.XInt ix2) ([h2], [c2]) g2 ([tok] ++ [tok2])).
  { intros k. cbn [RNN.decode_loop RNN.model_call]. unfold RNN.scalar_tensor.
    rewrite Hfw2. cbn [mbind result_bind RNN.single_item]. rewrite Hdraw2.
    by rewrite (getitem_Some _ _ _ Htok2). }
  split.
  - intros Hsteps. rewrite Hstart.
    destruct steps as [|[|steps]]; [| |lia].
    + by exists [tok].
    + rewrite Hstep. by exists [tok; tok2].
  - intros Hsteps. unfold RNN.complete. rewrite Hstart.
    destruct steps as [|[|steps]]; [lia|lia|].
    rewrite Hstep. reflexivity.
Qed.

Lemma X14_sampled_decoding_stops_at_two_witness :
  "a" ≠ "" ∧
  (2 ≤ 1 →
     ∃ out, RNN.complete_tokens (constant_topk1 2) no_sampler constant_model
              vocab_a "a" 2 true tt = Ok out
            ∧ length out = 2 + 1)
  ∧ (2 ≤ 2 →
     RNN.complete (constant_topk1 2) no_sampler constant_model vocab_a "a" 2 true tt
     = Raise TypeError).
Proof.
  split; [discriminate|].
  apply (X14_sampled_decoding_stops_at_two (constant_topk1 2) no_sampler
           constant_model vocab_a "a" 2 tt).
  - discriminate.
  - repeat constructor; exists 2; (split; [reflexivity | cbn; lia]).
  - intros g' row. unfold no_sampler, constant_model. cbn. lia.
  - intros i Hi. unfold constant_model in Hi. cbn in Hi.
    destruct i as [|[|[|i]]]; [vm_compute; eauto ..|lia].
Defined.

(** X15. Asking for one more step only appends: whenever [complete] returns
    with [steps + 1] steps, it also returns with [steps] steps, and the
    longer result is the shorter one followed by one more token — for
    greedy and for sampled decoding with the same generator state. *)
Theorem X15_more_steps_only_append {H C Logits Rng : Type}
    (topk1 : Logits → nat) (multinomial : Rng → Logits → nat * Rng)
    (m : RNN.LSTMModel H C Logits) (vocab : RNN.Vocabulary)
    (prompt : string) (steps : nat) (sample : bool) (g : Rng) (s' : string) :
  RNN.complete topk1 multinomial m vocab prompt (S steps) sample g = Ok s' →
  ∃ s tok i,
    RNN.complete topk1 multinomial m vocab prompt steps sample g = Ok s
    ∧ s' = String.append s tok
    ∧ RNN.id_to_string vocab !! i = Some tok.
Proof.
  unfold RNN.complete. intros Hrun.
  destruct (complete_tokens_start topk1 multinomial m vocab prompt sample g)
    as [[e He]|(x & st & g' & out & Hstart)].
  - by rewrite He in Hrun.
  - rewrite Hstart in Hrun. rewrite Hstart.
    destruct (RNN.decode_loop topk1 multinomial m vocab sample (S steps) x st g' out)
      as [out'|e] eqn:Hloop; [|discriminate].
    cbn in Hrun. injection Hrun as <-.
    destruct (decode_loop_prefix topk1 multinomial m vocab sample steps
                x st g' out out' Hloop) as (out_k & tok & -> & -> & i & Hi).
    exists (join out_k), tok, i. split_and!; [done| |done].
    rewrite join_app. change (join [tok]) with (String.append tok "").
    by rewrite string_append_nil_r.
Qed.

Lemma X15_more_steps_only_append_witness :
  RNN.complete (constant_topk1 2) no_sampler constant_model vocab_a "a" (S 2) false tt
  = Ok "aaaa" ∧
  ∃ s tok i,
    RNN.complete (constant_topk1 2) no_sampler constant_model vocab_a "a" 2 false tt
    = Ok s
    ∧ "aaaa" = String.append s tok
    ∧ RNN.id_to_string vocab_a !! i = Some tok.
Proof.
  assert (Hrun : RNN.complete (constant_topk1 2) no_sampler constant_model
                   vocab_a "a" (S 2) false tt = Ok "aaaa")
    by (vm_compute; reflexivity).
  split; [exact Hrun|].
  exact (X15_more_steps_only_append (constant_topk1 2) no_sampler constant_model
           vocab_a "a" 2 false tt "aaaa" Hrun).
Defined.

(** ** Paired dataset and padding masks *)

Section DatasetMore.
Import Transformer.

(** X16. For two files read as equally many lines, building an evaluation
    set with given vocabularies and [extend_vocab=False] leaves both
    vocabularies as they were: the dataset returns the very vocabularies it
    was given, and a character they lack is encoded by the unknown ID. *)
Theorem X16_closed_dataset_keeps_vocabularies (src_lines tgt_lines : list string)
    (sv tv : Vocabulary) :
  length src_lines = length tgt_lines →
  ∃ ds, parallel_text_to_data (Some src_lines) (Some tgt_lines)
          (Some sv) (Some tv) false = Ok ds
    ∧ src_vocab ds = sv ∧ tgt_vocab ds = tv
    ∧ data_list ds
      = zip ((λ l, padded_to (max_line_length src_lines) (pad_id sv)
                     (source_example sv l)) <$> src_lines)
            ((λ l, padded_to (max_line_length tgt_lines + 2) (pad_id tv)
                     (target_example tv l)) <$> tgt_lines).
Proof.
  intros Hlines.
  set (smax := max_line_length src_lines).
  set (tmax := max_line_length tgt_lines + 2).
  assert (Hsrc_len : Forall (λ line, String.length line ≤ smax) src_lines).
  { apply Forall_forall. intros l Hl. by apply max_line_length_ge. }
  assert (Htgt_len : Forall (λ line, String.length line + 2 ≤ tmax) tgt_lines).
  { apply Forall_forall. intros l Hl. subst tmax.
    pose proof (max_line_length_ge tgt_lines l Hl). lia. }
  destruct (load_src_spec false smax (pad_id sv) src_lines sv [] Hsrc_len)
    as (src_list & vs & Hsrc & (_ & _ & _ & _ & _ & Hvs) & Hsrc_out).
  destruct (load_tgt_spec false tmax (pad_id tv) (sos_id tv) (eos_id tv)
              tgt_lines tv [] Htgt_len)
    as (tgt_list & vt & Htgt & (_ & _ & _ & _ & _ & Hvt) & Htgt_out).
  cbn [app] in Hsrc, Htgt.
  specialize (Hvs eq_refl). specialize (Hvt eq_refl). subst vs vt.
  specialize (Hsrc_out sv (grows_to_refl _ _)).
  specialize (Htgt_out tv (grows_to_refl _ _)).
  exists (mkDataset (zip src_list tgt_list) sv tv smax tmax).
  split; [|by rewrite Hsrc_out, Htgt_out].
  unfold parallel_text_to_data.
  rewrite !bool_decide_eq_true_2 by eauto.
  cbn [py_assert mbind result_bind].
  change (default [] (Some src_lines)) with src_lines.
  change (default [] (Some tgt_lines)) with tgt_lines.
  change (default Vocabulary_default (Some sv)) with sv.
  change (default Vocabulary_default (Some tv)) with tv.
  unfold smax, tmax in Hsrc, Htgt. rewrite Hsrc. cbn [mbind result_bind].
  rewrite Htgt. cbn [mbind result_bind].
  rewrite bool_decide_eq_true_2
    by (rewrite Hsrc_out, Htgt_out, !length_fmap; exact Hlines).
  reflexivity.
Qed.

Lemma X16_closed_dataset_keeps_vocabularies_witness :
  length ["ab"; "c"] = length ["x"; "yz"] ∧
  ∃ ds, parallel_text_to_data (Some ["ab"; "c"]) (Some ["x"; "yz"])
          (Some Vocabulary_default) (Some Vocabulary_default) false = Ok ds
    ∧ src_vocab ds = Vocabulary_default ∧ tgt_vocab ds = Vocabulary_default.
Proof.
  split; [reflexivity|].
  destruct (X16_closed_dataset_keeps_vocabularies ["ab"; "c"] ["x"; "yz"]
              Vocabulary_default Vocabulary_default eq_refl)
    as (ds & Hrun & Hs & Ht & _).
  by exists ds.
Defined.

(** Whatever lines were read, the two loading loops return: the lookups
    do not fail and every encoded line fits the padded length. *)
Lemma load_src_total (e : bool) (lines : list string) (v : Vocabulary) :
  ∃ out v', load_src v e (max_line_length lines) (pad_id v) lines [] = Ok (out, v')
            ∧ length out = length lines.
Proof.
  destruct (load_src_spec e (max_line_length lines) (pad_id v) lines v [])
    as (out & v' & Hrun & _ & Hout).
  { apply Forall_forall. intros l Hl. by apply max_line_length_ge. }
  exists out, v'. split; [done|].
  by rewrite (Hout v' (grows_to_refl _ _)), length_fmap.
Qed.

Lemma load_tgt_total (e : bool) (lines : list string) (v : Vocabulary) :
  ∃ out v', load_tgt v e (max_line_length lines + 2) (pad_id v) (sos_id v)
              (eos_id v) lines [] = Ok (out, v')
            ∧ length out = length lines.
Proof.
  destruct (load_tgt_spec e (max_line_length lines + 2) (pad_id v) (sos_id v)
              (eos_id v) lines v [])
    as (out & v' & Hrun & _ & Hout).
  { apply Forall_forall. intros l Hl.
    pose proof (max_line_length_ge lines l Hl). lia. }
  exists out, v'. split; [done|].
  by rewrite (Hout v' (grows_to_refl _ _)), length_fmap.
Qed.

(** X17. For two files that are each missing or read as lines, the three
    assertions decide the result of [parallel_text_to_data]: it raises
    [AssertionError] when a path does not exist or when the files have
    different numbers of lines, and it returns otherwise.  Between the
    assertions nothing fails: the lookups return, and the padding
    assignment [new_seq[:var_len] = var_seq] always fits, because the
    maxima were measured on the same lines. *)
Theorem X17_dataset_fails_only_by_assertion (src_file tgt_file : option (list string))
    (sv tv : option Vocabulary) (e : bool) (ex : exn) :
  parallel_text_to_data src_file tgt_file sv tv e = Raise ex
  ↔ ex = AssertionError
    ∧ (src_file = None ∨ tgt_file = None
       ∨ length (default [] src_file) ≠ length (default [] tgt_file)).
Proof.
  unfold parallel_text_to_data.
  destruct src_file as [src_lines|];
    [|split; [intros [= <-]; split; [done|by left]|intros [-> _]; reflexivity]].
  destruct tgt_file as [tgt_lines|];
    [|split; [intros [= <-]; split; [done|right; by left]
             |intros [-> _]; reflexivity]].
  rewrite !bool_decide_eq_true_2 by eauto. cbn [py_assert mbind result_bind].
  change (default [] (Some src_lines)) with src_lines.
  change (default [] (Some tgt_lines)) with tgt_lines.
  destruct (load_src_total e src_lines (default Vocabulary_default sv))
    as (src_list & vs & -> & Hls).
  cbn [mbind result_bind].
  destruct (load_tgt_total e tgt_lines (default Vocabulary_default tv))
    as (tgt_list & vt & -> & Hlt).
  cbn [mbind result_bind]. rewrite Hls, Hlt.
  case_bool_decide as Hlen; cbn.
  - split; [discriminate|]. intros [_ [?|[?|?]]]; done.
  - split; [intros [= <-]; split; [done|right; by right]|by intros [-> _]].
Qed.

End DatasetMore.

Section MaskFacts.
Import Transformer.

Lemma chars_single (s : string) : Forall (λ c, String.length c = 1) (chars s).
Proof. induction s as [|a s IH]; cbn; by constructor. Qed.

Lemma Vocabulary_default_zero_reserved : zero_is_reserved Vocabulary_default.
Proof.
  split_and!; [done|vm_compute; lia|].
  intros s Hlen. unfold Vocabulary_default, Vocabulary_init. cbn [string_to_id].
  rewrite !lookup_insert. repeat case_decide; subst; discriminate.
Qed.

Lemma get_idx_zero_reserved (v v' : Vocabulary) (s : string) (e : bool) (i : nat) :
  zero_is_reserved v → get_idx v s e = Ok (i, v') → zero_is_reserved v'.
Proof.
  intros (Hunk & Hsize & Hzero). unfold get_idx.
  destruct (string_to_id v !! s) as [j|] eqn:Hs.
  - rewrite decide_True by eauto. rewrite (getitem_Some _ _ _ Hs).
    by intros [= <- <-].
  - rewrite decide_False by (by intros [? ?]). destruct e.
    + rewrite (getitem_Some _ _ (size (string_to_id v)))
        by apply lookup_insert_eq.
      intros [= <- <-]. split_and!; cbn; [done| |].
      * rewrite map_size_insert_None by done. lia.
      * intros s' Hlen. rewrite lookup_insert. case_decide.
        -- intros [= Hz]. lia.
        -- by apply Hzero.
    + by intros [= <- <-].
Qed.

Lemma encode_tokens_zero_reserved (e : bool) (tokens : list string) :
  ∀ v acc ids v',
  zero_is_reserved v → encode_tokens v e tokens acc = Ok (ids, v') →
  zero_is_reserved v'.
Proof.
  induction tokens as [|tok rest IH]; intros v acc ids v' Hz Hrun.
  - cbn in Hrun. by injection Hrun as <- <-.
  - cbn [encode_tokens] in Hrun.
    destruct (get_idx v tok e) as [[i v1]|ex] eqn:Hget; [|discriminate].
    cbn [mbind result_bind] in Hrun.
    eapply IH; [|exact Hrun]. by eapply get_idx_zero_reserved.
Qed.

Lemma load_src_zero_reserved (e : bool) (n pad : nat) (lines : list string) :
  ∀ v acc out v',
  zero_is_reserved v → load_src v e n pad lines acc = Ok (out, v') →
  zero_is_reserved v'.
Proof.
  induction lines as [|line rest IH]; intros v acc out v' Hz Hrun.
  - cbn in Hrun. by injection Hrun as <- <-.
  - cbn [load_src] in Hrun.
    destruct (encode_tokens v e (chars line) []) as [[seq v1]|ex] eqn:Henc;
      [|discriminate].
    cbn [mbind result_bind] in Hrun.
    destruct (pad_to n pad seq) as [new_seq|ex]; [|discriminate].
    cbn [mbind result_bind] in Hrun.
    eapply IH; [|exact Hrun]. by eapply encode_tokens_zero_reserved.
Qed.

Lemma load_tgt_zero_reserved (e : bool) (n pad sos eos : nat) (lines : list string) :
  ∀ v acc out v',
  zero_is_reserved v → load_tgt v e n pad sos eos lines acc = Ok (out, v') →
  zero_is_reserved v'.
Proof.
  induction lines as [|line rest IH]; intros v acc out v' Hz Hrun.
  - cbn in Hrun. by injection Hrun as <- <-.
  - cbn [load_tgt] in Hrun. unfold encode_target in Hrun.
    destruct (encode_tokens v e (chars line) [sos]) as [[seq v1]|ex] eqn:Henc;
      [|discriminate].
    cbn [mbind result_bind] in Hrun.
    destruct (pad_to n pad (seq ++ [eos])) as [new_seq|ex]; [|discriminate].
    cbn [mbind result_bind] in Hrun.
    eapply IH; [|exact Hrun]. by eapply encode_tokens_zero_reserved.
Qed.

Lemma lookup_id_nonzero (v : Vocabulary) (c : string) :
  zero_is_reserved v → String.length c = 1 → lookup_id v c ≠ 0.
Proof.
  intros (Hunk & _ & Hzero) Hlen. unfold lookup_id.
  destruct (string_to_id v !! c) as [i|] eqn:Hc; cbn; [|done].
  intros ->. by apply (Hzero c Hlen).
Qed.

Lemma source_example_nonzero (v : Vocabulary) (line : string) :
  zero_is_reserved v → Forall (λ x, x ≠ 0) (source_example v line).
Proof.
  intros Hz. unfold source_example. apply Forall_fmap.
  eapply Forall_impl; [apply chars_single|].
  intros c Hc. by apply lookup_id_nonzero.
Qed.

Lemma mask_nonzero (l : list nat) :
  Forall (λ x, x ≠ 0) l →
  (λ x, bool_decide (x = 0)) <$> l = replicate (length l) false.
Proof.
  induction 1 as [|x l Hx _ IH]; [reflexivity|].
  cbn. by rewrite bool_decide_eq_false_2, IH.
Qed.

Lemma mask_padded (n : nat) (seq : list nat) :
  Forall (λ x, x ≠ 0) seq →
  (λ x, bool_decide (x = 0)) <$> padded_to n 0 seq
  = replicate (length seq) false ++ replicate (n - length seq) true.
Proof.
  intros Hseq. unfold padded_to.
  rewrite fmap_app, mask_nonzero, fmap_replicate by done. reflexivity.
Qed.

(** The mask of a transposed batch is the batch compared with 0, example by
    example. *)
Lemma padding_mask_of_transposed (x : RNN.Tensor2) :
  Forall (λ r, length r = RNN.ncols x) (RNN.rows x) →
  create_src_padding_mask (transpose01 x)
  = (λ row : list nat, (λ y, bool_decide (y = 0)) <$> row) <$> RNN.rows x.
Proof.
  intros Hwf. unfold create_src_padding_mask, transpose01, RNN.t, RNN.shape0.
  cbn [RNN.rows RNN.ncols]. by rewrite transpose_involutive.
Qed.

End MaskFacts.

Section MaskTheorem.
Import Transformer.

(** The run of [parallel_text_to_data] on aligned files, with the two
    loading loops made explicit. *)
Lemma dataset_runs (src_lines tgt_lines : list string)
    (sv tv : option Vocabulary) (e : bool) :
  length src_lines = length tgt_lines →
  let v0s := default Vocabulary_default sv in
  let v0t := default Vocabulary_default tv in
  let smax := max_line_length src_lines in
  let tmax := max_line_length tgt_lines + 2 in
  ∃ src_list tgt_list vs vt,
    load_src v0s e smax (pad_id v0s) src_lines [] = Ok (src_list, vs)
    ∧ load_tgt v0t e tmax (pad_id v0t) (sos_id v0t) (eos_id v0t) tgt_lines []
      = Ok (tgt_list, vt)
    ∧ parallel_text_to_data (Some src_lines) (Some tgt_lines) sv tv e
      = Ok (mkDataset (zip src_list tgt_list) vs vt smax tmax)
    ∧ grows_to e v0s vs ∧ grows_to e v0t vt
    ∧ src_list
      = (λ l, padded_to smax (pad_id v0s) (source_example vs l)) <$> src_lines
    ∧ tgt_list
      = (λ l, padded_to tmax (pad_id v0t)
                (sos_id v0t :: (lookup_id vt <$> chars l) ++ [eos_id v0t]))
          <$> tgt_lines.
Proof.
  intros Hlines v0s v0t smax tmax.
  assert (Hsrc_len : Forall (λ line, String.length line ≤ smax) src_lines).
  { apply Forall_forall. intros l Hl. by apply max_line_length_ge. }
  assert (Htgt_len : Forall (λ line, String.length line + 2 ≤ tmax) tgt_lines).
  { apply Forall_forall. intros l Hl. subst tmax.
    pose proof (max_line_length_ge tgt_lines l Hl). lia. }
  destruct (load_src_spec e smax (pad_id v0s) src_lines v0s [] Hsrc_len)
    as (src_list & vs & Hsrc & Hgs & Hsrc_out).
  destruct (load_tgt_spec e tmax (pad_id v0t) (sos_id v0t) (eos_id v0t)
              tgt_lines v0t [] Htgt_len)
    as (tgt_list & vt & Htgt & Hgt & Htgt_out).
  cbn [app] in Hsrc, Htgt.
  specialize (Hsrc_out vs (grows_to_refl _ _)).
  specialize (Htgt_out vt (grows_to_refl _ _)).
  exists src_list, tgt_list, vs, vt. split_and!; try done.
  unfold parallel_text_to_data.
  rewrite !bool_decide_eq_true_2 by eauto.
  cbn [py_assert mbind result_bind].
  change (default [] (Some src_lines)) with src_lines.
  change (default [] (Some tgt_lines)) with tgt_lines.
  unfold v0s, v0t, smax, tmax in Hsrc, Htgt.
  rewrite Hsrc. cbn [mbind result_bind]. rewrite Htgt. cbn [mbind result_bind].
  rewrite bool_decide_eq_true_2
    by (rewrite Hsrc_out, Htgt_out, !length_fmap; exact Hlines).
  reflexivity.
Qed.

Lemma Vocabulary_default_mask_ready : mask_ready Vocabulary_default.
Proof. split_and!; [apply Vocabulary_default_zero_reserved|done..]. Qed.

(** X18. For a dataset built from vocabularies in which 0 is only the pad
    ID (the fresh ones are such, and the ones a dataset returns are such
    again), the padding masks of the whole source and target batches mark
    exactly the padding: in the row of each example, [False] on the encoded
    line (and its two markers, for a target) and [True] from there to the
    padded length. *)
Theorem X18_padding_masks_mark_padding (src_lines tgt_lines : list string)
    (sv tv : option Vocabulary) (e : bool) :
  length src_lines = length tgt_lines →
  mask_ready (default Vocabulary_default sv) →
  mask_ready (default Vocabulary_default tv) →
  ∃ ds, parallel_text_to_data (Some src_lines) (Some tgt_lines) sv tv e = Ok ds
    ∧ mask_ready (src_vocab ds) ∧ mask_ready (tgt_vocab ds)
    ∧ create_src_padding_mask
        (transpose01 {| RNN.ncols := src_max ds; RNN.rows := (data_list ds).*1 |})
      = (λ l, replicate (String.length l) false
              ++ replicate (src_max ds - String.length l) true) <$> src_lines
    ∧ create_tgt_padding_mask
        (transpose01 {| RNN.ncols := tgt_max ds; RNN.rows := (data_list ds).*2 |})
      = (λ l, replicate (String.length l + 2) false
              ++ replicate (tgt_max ds - (String.length l + 2)) true) <$> tgt_lines.
Proof.
  intros Hlines (Hzs & Hps & Hss & Hes) (Hzt & Hpt & Hst & Het).
  destruct (dataset_runs src_lines tgt_lines sv tv e Hlines)
    as (src_list & tgt_list & vs & vt & Hsrc & Htgt & Hrun & Hgs & Hgt
        & Hsrc_out & Htgt_out).
  set (v0s := default Vocabulary_default sv) in *.
  set (v0t := default Vocabulary_default tv) in *.
  set (smax := max_line_length src_lines) in *.
  set (tmax := max_line_length tgt_lines + 2) in *.
  pose proof (load_src_zero_reserved _ _ _ _ _ _ _ _ Hzs Hsrc) as Hzs'.
  pose proof (load_tgt_zero_reserved _ _ _ _ _ _ _ _ _ _ Hzt Htgt) as Hzt'.
  destruct Hgs as (_ & Hps' & _ & Hes' & Hss' & _).
  destruct Hgt as (_ & Hpt' & _ & Het' & Hst' & _).
  assert (Hlen : length src_list = length tgt_list)
    by (by rewrite Hsrc_out, Htgt_out, !length_fmap).
  eexists. split; [exact Hrun|].
  cbn [src_vocab tgt_vocab src_max tgt_max data_list].
  rewrite fst_zip, snd_zip by lia.
  split_and!.
  - split_and!; [done|congruence..].
  - split_and!; [done|congruence..].
  - rewrite padding_mask_of_transposed.
    + cbn [RNN.rows]. rewrite Hsrc_out, <- list_fmap_compose.
      apply list_fmap_ext. intros i l Hl. cbn [compose]. rewrite Hps.
      rewrite mask_padded by (by apply source_example_nonzero).
      unfold source_example. by rewrite length_fmap, length_chars.
    + cbn [RNN.rows RNN.ncols]. rewrite Hsrc_out.
      apply Forall_fmap, Forall_forall. intros l Hl. cbn [compose].
      apply length_padded_to. unfold source_example.
      rewrite length_fmap, length_chars. by apply max_line_length_ge.
  - unfold create_tgt_padding_mask.
    change (create_src_padding_mask
              (transpose01 {| RNN.ncols := tmax; RNN.rows := tgt_list |})
            = (λ l, replicate (String.length l + 2) false
                    ++ replicate (tmax - (String.length l + 2)) true)
                <$> tgt_lines).
    assert (Hseq : ∀ l,
              Forall (λ x, x ≠ 0)
                (sos_id v0t :: (lookup_id vt <$> chars l) ++ [eos_id v0t])).
    { intros l. constructor; [done|]. apply Forall_app. split.
      - by apply (source_example_nonzero vt l).
      - by constructor. }
    assert (Hseqlen : ∀ l,
              length (sos_id v0t :: (lookup_id vt <$> chars l) ++ [eos_id v0t])
              = String.length l + 2).
    { intros l. cbn [length].
      rewrite length_app, length_fmap, length_chars. cbn. lia. }
    rewrite padding_mask_of_transposed.
    + cbn [RNN.rows]. rewrite Htgt_out, <- list_fmap_compose.
      apply list_fmap_ext. intros i l Hl. cbn [compose]. rewrite Hpt.
      rewrite mask_padded by done. by rewrite Hseqlen.
    + cbn [RNN.rows RNN.ncols]. rewrite Htgt_out.
      apply Forall_fmap, Forall_forall. intros l Hl. cbn [compose].
      apply length_padded_to. rewrite Hseqlen.
      pose proof (max_line_length_ge tgt_lines l Hl). subst tmax. lia.
Qed.

Lemma X18_padding_masks_mark_padding_witness :
  length ["ab"; "c"] = length ["x"; "yz"] ∧
  ∃ ds, parallel_text_to_data (Some ["ab"; "c"]) (Some ["x"; "yz"]) None None true
        = Ok ds
    ∧ create_src_padding_mask
        (transpose01 {| RNN.ncols := src_max ds; RNN.rows := (data_list ds).*1 |})
      = (λ l, replicate (String.length l) false
              ++ replicate (src_max ds - String.length l) true) <$> ["ab"; "c"].
Proof.
  split; [reflexivity|].
  destruct (X18_padding_masks_mark_padding ["ab"; "c"] ["x"; "yz"] None None true
              eq_refl Vocabulary_default_mask_ready Vocabulary_default_mask_ready)
    as (ds & Hrun & _ & _ & Hsrc & _).
  by exists ds.
Defined.

End MaskTheorem.

(** ** Accuracy *)

Section AccuracyMore.
Import Transformer.
Context {A B : Type} (eqb : A → B → bool).

Lemma index0_out_of_range (x : Tensor A) (n : nat) (sh : list nat) (i : nat) :
  shape x = n :: sh → n ≤ i → index0 x i = Raise IndexError.
Proof.
  intros Hx Hi. unfold index0. rewrite Hx. by rewrite decide_False by lia.
Qed.

Lemma count_correct_app (preds : Tensor A) (tgt_ : Tensor B) (l1 l2 : list nat) :
  ∀ correct,
  count_correct eqb preds tgt_ (l1 ++ l2) correct
  = count_correct eqb preds tgt_ l1 correct ≫= count_correct eqb preds tgt_ l2.
Proof.
  induction l1 as [|i l1 IH]; intros correct; [reflexivity|].
  cbn [app count_correct].
  destruct (index0 preds i) as [p|e]; [|reflexivity]. cbn [mbind result_bind].
  destruct (index0 tgt_ i) as [g|e]; [|reflexivity]. cbn [mbind result_bind].
  destruct (tensor_eq eqb p g) as [r|e]; [|reflexivity]. cbn [mbind result_bind].
  apply IH.
Qed.

Lemma count_correct_in_range (preds : Tensor A) (tgt_ : Tensor B)
    (np nt : nat) (sp st : list nat) (range : list nat) : ∀ correct,
  shape preds = np :: sp → shape tgt_ = nt :: st →
  is_Some (broadcast_shapes sp st) →
  Forall (λ i, i < np ∧ i < nt) range →
  count_correct eqb preds tgt_ range correct = Ok (correct + length range).
Proof.
  intros correct Hp Ht [out Hout] Hrange. revert correct.
  induction Hrange as [|i range [Hip Hit] _ IH]; intros correct.
  - cbn. f_equal. lia.
  - cbn [count_correct]. unfold index0. rewrite Hp, Ht.
    rewrite !decide_True by done. cbn [mbind result_bind].
    unfold tensor_eq. cbn [shape]. rewrite Hout.
    cbn [mbind result_bind]. rewrite truthy_attr_all, IH.
    f_equal. cbn [length]. lia.
Qed.

End AccuracyMore.

(** X19. [compute_accuracy] runs over the examples of [tgt_] only.  With
    comparable per-example shapes: if [preds] has at least as many examples
    as [tgt_] (and [tgt_] has one), the result is 1 and the surplus of
    [preds] is never read; if [preds] has fewer, indexing it raises
    [IndexError]. *)
Theorem X19_accuracy_follows_target_count {A B : Type} (eqb : A → B → bool)
    (np nt : nat) (sp st : list nat) (dp : list A) (dt : list B) :
  is_Some (Transformer.broadcast_shapes sp st) →
  (0 < nt → nt ≤ np →
     ∃ q, Transformer.compute_accuracy eqb
            (Transformer.mkTensor (np :: sp) dp) (Transformer.mkTensor (nt :: st) dt)
          = Ok q ∧ Qeq q 1)
  ∧ (np < nt →
     Transformer.compute_accuracy eqb
       (Transformer.mkTensor (np :: sp) dp) (Transformer.mkTensor (nt :: st) dt)
     = Raise IndexError).
Proof.
  intros Hbc. unfold Transformer.compute_accuracy, Transformer.shape0.
  cbn [Transformer.shape mbind result_bind]. split.
  - intros Hnt Hle. exists (Qmake (Z.of_nat nt) (Pos.of_nat nt)). split.
    + rewrite (count_correct_in_range eqb _ _ np nt sp st); [|done|done|done|].
      * cbn [mbind result_bind]. rewrite length_seq.
        unfold Transformer.true_div. by rewrite decide_False by lia.
      * apply Forall_forall. intros i Hi%elem_of_seq. lia.
    + unfold Qeq. cbn [Qnum Qden].
      destruct nt as [|nt]; [lia|].
      rewrite <- Pos.of_nat_succ, Zpos_P_of_succ_nat. lia.
  - intros Hlt.
    replace nt with (np + S (nt - np - 1)) by lia.
    rewrite seq_app, count_correct_app.
    rewrite (count_correct_in_range eqb _ _ np (np + S (nt - np - 1)) sp st);
      [|done|done|done|].
    + cbn [mbind result_bind seq Transformer.count_correct].
      by rewrite (index0_out_of_range (Transformer.mkTensor (np :: sp) dp) np sp
                    (0 + np)) by (done || lia).
    + apply Forall_forall. intros i Hi%elem_of_seq. lia.
Qed.

Lemma X19_accuracy_follows_target_count_witness :
  is_Some (Transformer.broadcast_shapes [2] [2]) ∧
  (0 < 2 → 2 ≤ 1 →
     ∃ q, Transformer.compute_accuracy Nat.eqb
            (Transformer.mkTensor [1; 2] [5; 6]) (Transformer.mkTensor [2; 2] [5; 6; 7; 8])
          = Ok q ∧ Qeq q 1)
  ∧ (1 < 2 →
     Transformer.compute_accuracy Nat.eqb
       (Transformer.mkTensor [1; 2] [5; 6]) (Transformer.mkTensor [2; 2] [5; 6; 7; 8])
     = Raise IndexError).
Proof.
  assert (Hbc : is_Some (Transformer.broadcast_shapes [2] [2]))
    by (vm_compute; eauto).
  split; [exact Hbc|].
  exact (X19_accuracy_follows_target_count Nat.eqb 1 2 [2] [2]
           [5; 6] [5; 6; 7; 8] Hbc).
Defined.

(** ** Training and validation loops of the Transformer script *)

Section LoopFacts.
Import Transformer.
Context {P G Opt R Rng : Type} (bk : Backend P G Opt R Rng).

Lemma py_mod_Ok (a b : nat) : 0 < b → py_mod a b = Ok (a `mod` b).
Proof. intros Hb. unfold py_mod. by rewrite decide_False by lia. Qed.

(** What one training iteration leaves, field by field. *)
Lemma train_iteration_Ok (acc n : nat) (st st' : loop_state P G Opt R Rng)
    (i : nat) (src tgt : Tensor nat) :
  train_iteration bk acc n st i (src, tgt) = Ok st' →
  0 < acc ∧ 0 < n
  ∧ (∃ output rng',
       model_train bk (params st) (rng st) src tgt = Ok (output, rng')
       ∧ rng st' = rng'
       ∧ ((i `mod` n = 0 ∧ ∃ a, compute_accuracy (eq_elem bk) output tgt = Ok a
                                ∧ tacc st' = tacc st ++ [a])
          ∨ (i `mod` n ≠ 0 ∧ tacc st' = tacc st)))
  ∧ grads st'
    = Some (clip_grad_norm bk (gradient bk (params st) (rng st) src tgt))
  ∧ (params st', opt_state st')
    = (if decide ((i + 1) `mod` acc = 0)
       then adam_step bk (params st, opt_state st)
              (clip_grad_norm bk (gradient bk (params st) (rng st) src tgt))
       else (params st, opt_state st))
  ∧ var_i st' = Some i ∧ var_batch st' = Some (src, tgt)
  ∧ valid_loss st' = valid_loss st ∧ val_acc st' = val_acc st
  ∧ vloss st' = vloss st ∧ vacc st' = vacc st.
Proof.
  unfold train_iteration, py_mod.
  destruct (model_train bk (params st) (rng st) src tgt) as [[output rng']|e];
    [|discriminate].
  cbn [mbind result_bind].
  destruct (loss_fn bk output tgt) as [loss|e]; [|discriminate].
  cbn [mbind result_bind backward].
  destruct (decide (acc = 0)) as [->|Hacc]; [discriminate|].
  cbn [mbind result_bind].
  destruct (decide (n = 0)) as [->|Hn].
  { destruct (decide ((i + 1) `mod` acc = 0));
      [destruct (adam_step bk _ _)|]; discriminate. }
  set (g := clip_grad_norm bk (gradient bk (params st) (rng st) src tgt)).
  destruct (decide ((i + 1) `mod` acc = 0)) as [Hstep|Hstep].
  - destruct (adam_step bk (params st, opt_state st) g) as [p' o'] eqn:Hadam.
    cbn [mbind result_bind].
    destruct (decide (i `mod` n = 0)) as [Hrep|Hrep].
    + destruct (compute_accuracy (eq_elem bk) output tgt) as [a|e] eqn:Hacc';
        [|discriminate].
      cbn [mbind result_bind]. intros [= <-]. cbn.
      split_and!; try done; try lia. exists output, rng'. naive_solver.
    + intros [= <-]. cbn.
      split_and!; try done; try lia. exists output, rng'. naive_solver.
  - cbn [mbind result_bind].
    destruct (decide (i `mod` n = 0)) as [Hrep|Hrep].
    + destruct (compute_accuracy (eq_elem bk) output tgt) as [a|e] eqn:Hacc';
        [|discriminate].
      cbn [mbind result_bind]. intros [= <-]. cbn.
      split_and!; try done; try lia. exists output, rng'. naive_solver.
    + intros [= <-]. cbn.
      split_and!; try done; try lia. exists output, rng'. naive_solver.
Qed.

Lemma train_loop_no_step (acc n : nat) (loader : list (Tensor nat * Tensor nat)) :
  ∀ (st st' : loop_state P G Opt R Rng) (i : nat),
  train_loop bk acc n st i loader = Ok st' →
  i + length loader < acc →
  params st' = params st ∧ opt_state st' = opt_state st.
Proof.
  induction loader as [|[src tgt] rest IH]; intros st st' i Hrun Hlen.
  - cbn in Hrun. by injection Hrun as <-.
  - cbn [train_loop] in Hrun. cbn [length] in Hlen.
    destruct (train_iteration bk acc n st i (src, tgt)) as [st1|e] eqn:Hit;
      [|discriminate].
    cbn [mbind result_bind] in Hrun.
    apply train_iteration_Ok in Hit as (_ & _ & _ & _ & Hpo & _).
    rewrite decide_False in Hpo by (rewrite Nat.mod_small; lia).
    injection Hpo as Hp Ho.
    destruct (IH st1 st' (S i) Hrun) as [Hp' Ho']; [lia|].
    split; congruence.
Qed.

End LoopFacts.

(** X20. Gradients are never accumulated: [zero_grad()] runs in every
    iteration, so the gradient an iteration leaves is its own batch's, and
    the optimizer steps only when [(i + 1) % accumulation_steps == 0].  A
    training loop over fewer batches than [accumulation_steps] therefore
    leaves the model's parameters and the optimizer state untouched, and
    the gradient left after any loop is that of its last batch alone. *)
Theorem X20_fewer_batches_than_accumulation_steps {P G Opt R Rng : Type}
    (bk : Transformer.Backend P G Opt R Rng) (acc n : nat)
    (st st1 st' : Transformer.loop_state P G Opt R Rng)
    (loader : list (Transformer.Tensor nat * Transformer.Tensor nat))
    (src tgt : Transformer.Tensor nat) :
  Transformer.train_loop bk acc n st 0 loader = Ok st1 →
  Transformer.train_iteration bk acc n st1 (length loader) (src, tgt) = Ok st' →
  length loader + 1 < acc →
  Transformer.train_loop bk acc n st 0 (loader ++ [(src, tgt)]) = Ok st'
  ∧ Transformer.params st' = Transformer.params st
  ∧ Transformer.opt_state st' = Transformer.opt_state st
  ∧ Transformer.grads st'
    = Some (Transformer.clip_grad_norm bk
              (Transformer.gradient bk (Transformer.params st)
                 (Transformer.rng st1) src tgt)).
Proof.
  intros Hloop Hit Hlen.
  assert (Happ : ∀ l (s0 s1 : Transformer.loop_state P G Opt R Rng) i b,
            Transformer.train_loop bk acc n s0 i l = Ok s1 →
            Transformer.train_loop bk acc n s0 i (l ++ [b])
            = Transformer.train_iteration bk acc n s1 (i + length l) b).
  { induction l as [|b0 l IH]; intros s0 s1 i b Hl.
    - cbn in Hl. injection Hl as <-. cbn. rewrite Nat.add_0_r.
      by destruct (Transformer.train_iteration bk acc n s0 i b).
    - cbn [app Transformer.train_loop] in Hl |- *.
      destruct (Transformer.train_iteration bk acc n s0 i b0) as [s2|e];
        [|discriminate].
      cbn [mbind result_bind] in Hl |- *. rewrite (IH _ _ _ _ Hl).
      f_equal. cbn [length]. lia. }
  destruct (train_loop_no_step bk acc n loader st st1 0 Hloop) as [Hp1 Ho1];
    [lia|].
  pose proof (train_iteration_Ok bk acc n st1 st' (length loader) src tgt Hit)
    as (_ & _ & _ & Hg & Hpo & _).
  rewrite decide_False in Hpo by (rewrite Nat.mod_small; lia).
  injection Hpo as Hp Ho.
  split_and!.
  - by rewrite (Happ _ _ _ _ _ Hloop).
  - congruence.
  - congruence.
  - by rewrite Hg, Hp1.
Qed.

Lemma X20_fewer_batches_than_accumulation_steps_witness :
  Transformer.train_loop counting_backend 100 5000 initial_state 0
    [one_batch 5 7; one_batch 6 8]
  = Ok (Transformer.mkLoopState 0 tt (Some tt) tt tt tt 0%Q 0%Q
          [tt] [Qmake 1 1] [] [] (Some 1) (Some (one_batch 6 8))) ∧
  2 + 1 < 100 ∧
  Transformer.params
    (Transformer.mkLoopState 0 tt (Some tt) tt tt tt 0%Q 0%Q
       [tt] [Qmake 1 1] [] [] (Some 2) (Some (one_batch 9 9)))
  = Transformer.params initial_state.
Proof.
  assert (H1 : Transformer.train_loop counting_backend 100 5000 initial_state 0
                 [one_batch 5 7; one_batch 6 8]
               = Ok (Transformer.mkLoopState 0 tt (Some tt) tt tt tt 0%Q 0%Q
                       [tt] [Qmake 1 1] [] [] (Some 1) (Some (one_batch 6 8))))
    by (vm_compute; reflexivity).
  assert (H2 : Transformer.train_iteration counting_backend 100 5000
                 (Transformer.mkLoopState 0 tt (Some tt) tt tt tt 0%Q 0%Q
                    [tt] [Qmake 1 1] [] [] (Some 1) (Some (one_batch 6 8)))
                 (length [one_batch 5 7; one_batch 6 8])
                 (Transformer.mkTensor [1; 1] [9], Transformer.mkTensor [1; 1] [9])
               = Ok (Transformer.mkLoopState 0 tt (Some tt) tt tt tt 0%Q 0%Q
                       [tt] [Qmake 1 1] [] [] (Some 2) (Some (one_batch 9 9))))
    by (vm_compute; reflexivity).
  assert (H3 : length [one_batch 5 7; one_batch 6 8] + 1 < 100) by (cbn; lia).
  split; [exact H1|]. split; [lia|].
  exact (proj1 (proj2 (X20_fewer_batches_than_accumulation_steps
                         counting_backend 100 5000 _ _ _ _ _ _ H1 H2 H3))).
Defined.

Section LoopAccuracy.
Import Transformer.
Context {P G Opt R Rng : Type} (bk : Backend P G Opt R Rng).

Lemma broadcast_scores_targets (v t : nat) : is_Some (broadcast_shapes [v; t] [t]).
Proof.
  unfold broadcast_shapes. cbn. rewrite decide_True by done. cbn. eauto.
Qed.

Lemma compute_accuracy_one {A B : Type} (eqb : A → B → bool)
    (preds : Tensor A) (tgt_ : Tensor B) (n : nat) (sp st : list nat) :
  shape preds = n :: sp → shape tgt_ = n :: st → 0 < n →
  is_Some (broadcast_shapes sp st) →
  ∃ q, compute_accuracy eqb preds tgt_ = Ok q ∧ Qeq q 1.
Proof.
  intros Hp Ht Hn Hbc. exists (Qmake (Z.of_nat n) (Pos.of_nat n)). split.
  - unfold compute_accuracy, shape0. rewrite Ht. cbn [mbind result_bind].
    rewrite (count_correct_all eqb _ _ n sp st); [|done|done|done|].
    + cbn [mbind result_bind]. rewrite length_seq.
      unfold true_div. by rewrite decide_False by lia.
    + apply Forall_forall. intros i Hi%elem_of_seq. lia.
  - unfold Qeq. cbn [Qnum Qden].
    destruct n as [|n]; [lia|].
    rewrite <- Pos.of_nat_succ, Zpos_P_of_succ_nat. lia.
Qed.

Lemma train_loop_tacc (acc n : nat) (loader : list (Tensor nat * Tensor nat)) :
  output_shaped bk →
  Forall (λ b, ∃ bsz t, 0 < bsz ∧ shape b.2 = [bsz; t]) loader →
  ∀ (st st' : loop_state P G Opt R Rng) (i : nat),
  train_loop bk acc n st i loader = Ok st' →
  ∃ new, tacc st' = tacc st ++ new ∧ Forall (λ q, Qeq q 1) new.
Proof.
  intros [Hshape _] Hloader.
  induction Hloader as [|[src tgt] rest (bsz & t & Hb & Htgt) _ IH];
    intros st st' i Hrun.
  - cbn in Hrun. injection Hrun as <-. exists []. by rewrite app_nil_r.
  - cbn [train_loop] in Hrun. cbn [snd] in Htgt.
    destruct (train_iteration bk acc n st i (src, tgt)) as [st1|e] eqn:Hit;
      [|discriminate].
    cbn [mbind result_bind] in Hrun.
    apply train_iteration_Ok in Hit
      as (_ & _ & (output & rng' & Hfw & _ & Hrep) & _).
    destruct (IH st1 st' (S i) Hrun) as (new & Hnew & Hall).
    destruct Hrep as [(_ & a & Ha & Htacc)|(_ & Htacc)].
    + destruct (Hshape _ _ _ _ _ _ _ _ Hfw Htgt) as [v Hout].
      destruct (compute_accuracy_one (eq_elem bk) output tgt bsz [v; t] [t]
                  Hout Htgt Hb (broadcast_scores_targets v t)) as (q & Hq & Hone).
      rewrite Hq in Ha. injection Ha as <-.
      exists (q :: new). rewrite Hnew, Htacc, <- app_assoc.
      split; [done|by constructor].
    + exists new. by rewrite Hnew, Htacc.
Qed.

End LoopAccuracy.

(** X21. The training accuracy that the loop records says nothing: with a
    model whose output has the examples of the batch first and the time
    steps last, and batches of at least one example, every value appended
    to [tacc] by the training loop is 1. *)
Theorem X21_recorded_training_accuracy_is_one {P G Opt R Rng : Type}
    (bk : Transformer.Backend P G Opt R Rng) (acc n : nat)
    (st st' : Transformer.loop_state P G Opt R Rng)
    (loader : list (Transformer.Tensor nat * Transformer.Tensor nat)) :
  output_shaped bk →
  Forall (λ b, ∃ bsz t, 0 < bsz ∧ Transformer.shape b.2 = [bsz; t]) loader →
  Transformer.train_loop bk acc n st 0 loader = Ok st' →
  ∃ new, Transformer.tacc st' = Transformer.tacc st ++ new
         ∧ Forall (λ q, Qeq q 1) new
         ∧ (loader ≠ [] → new ≠ []).
Proof.
  intros Hshape Hloader Hrun.
  destruct (train_loop_tacc bk acc n loader Hshape Hloader st st' 0 Hrun)
    as (new & Hnew & Hall).
  exists new. split_and!; [done|done|].
  intros Hne Hnil. subst new. rewrite app_nil_r in Hnew.
  destruct loader as [|[src tgt] rest]; [done|].
  cbn [Transformer.train_loop] in Hrun.
  destruct (Transformer.train_iteration bk acc n st 0 (src, tgt)) as [st1|e] eqn:Hit;
    [|discriminate].
  cbn [mbind result_bind] in Hrun.
  apply train_iteration_Ok in Hit as (_ & Hn & (output & rng' & _ & _ & Hrep) & _).
  apply Forall_cons in Hloader as [_ Hrest].
  destruct (train_loop_tacc bk acc n rest Hshape Hrest st1 st' 1 Hrun)
    as (new' & Hnew' & _).
  destruct Hrep as [(_ & a & _ & Htacc)|(Hmod & _)].
  - rewrite Hnew', Htacc, <- app_assoc in Hnew.
    apply (f_equal length) in Hnew. rewrite !length_app in Hnew.
    cbn [length] in Hnew. lia.
  - by rewrite Nat.Div0.mod_0_l in Hmod.
Qed.

Lemma counting_backend_shaped : output_shaped counting_backend.
Proof.
  split.
  - intros p r src tgt out r' b t [= <- _] Ht. exists 1.
    unfold scores_for. cbn [Transformer.shape]. by rewrite Ht.
  - intros p src tgt out b t [= <-] Ht. exists 1.
    unfold scores_for. cbn [Transformer.shape]. by rewrite Ht.
Qed.

Lemma X21_recorded_training_accuracy_is_one_witness :
  Forall (λ b, ∃ bsz t, 0 < bsz ∧ Transformer.shape b.2 = [bsz; t])
    [one_batch 5 7; one_batch 6 8] ∧
  Transformer.train_loop counting_backend 100 5000 initial_state 0
    [one_batch 5 7; one_batch 6 8]
  = Ok (Transformer.mkLoopState 0 tt (Some tt) tt tt tt 0%Q 0%Q
          [tt] [Qmake 1 1] [] [] (Some 1) (Some (one_batch 6 8))) ∧
  ∃ new, [Qmake 1 1] = Transformer.tacc initial_state ++ new
         ∧ Forall (λ q, Qeq q 1) new
         ∧ ([one_batch 5 7; one_batch 6 8] ≠ [] → new ≠ []).
Proof.
  assert (H0 : Forall (λ b, ∃ bsz t, 0 < bsz ∧ Transformer.shape b.2 = [bsz; t])
                 [one_batch 5 7; one_batch 6 8]).
  { repeat constructor; exists 1, 1; (split; [lia|reflexivity]). }
  assert (H1 : Transformer.train_loop counting_backend 100 5000 initial_state 0
                 [one_batch 5 7; one_batch 6 8]
               = Ok (Transformer.mkLoopState 0 tt (Some tt) tt tt tt 0%Q 0%Q
                       [tt] [Qmake 1 1] [] [] (Some 1) (Some (one_batch 6 8))))
    by (vm_compute; reflexivity).
  split; [exact H0|]. split; [exact H1|].
  exact (X21_recorded_training_accuracy_is_one counting_backend 100 5000
           initial_state _ _ counting_backend_shaped H0 H1).
Defined.

(** ** The validation loop and the end of an epoch *)

Section ValidationFacts.
Context {P G Opt R Rng : Type} (bk : Transformer.Backend P G Opt R Rng).

Lemma valid_loop_length
    (l1 l2 : list (Transformer.Tensor nat * Transformer.Tensor nat)) :
  length l1 = length l2 →
  ∀ (st : Transformer.loop_state P G Opt R Rng) (i : nat),
    Transformer.valid_loop bk st i l1 = Transformer.valid_loop bk st i l2.
Proof.
  revert l2. induction l1 as [|b1 l1 IH]; intros [|b2 l2] Hlen st i;
    try discriminate; [reflexivity|].
  cbn [Transformer.valid_loop].
  change (Transformer.valid_iteration bk st i b2)
    with (Transformer.valid_iteration bk st i b1).
  destruct (Transformer.valid_iteration bk st i b1) as [st1|e]; [|reflexivity].
  cbn [mbind result_bind]. apply IH. by injection Hlen.
Qed.

Lemma valid_iteration_Ok (st st' : Transformer.loop_state P G Opt R Rng)
    (i : nat) (b : Transformer.Tensor nat * Transformer.Tensor nat) :
  Transformer.valid_iteration bk st i b = Ok st' →
  Transformer.var_i st' = Some i
  ∧ Transformer.var_batch st' = Transformer.var_batch st
  ∧ Transformer.params st' = Transformer.params st
  ∧ Transformer.tloss st' = Transformer.tloss st
  ∧ Transformer.tacc st' = Transformer.tacc st
  ∧ Transformer.vloss st' = Transformer.vloss st
  ∧ Transformer.vacc st' = Transformer.vacc st
  ∧ ∃ src tgt output loss,
      Transformer.var_batch st = Some (src, tgt)
      ∧ Transformer.model_eval bk (Transformer.params st) src tgt = Ok output
      ∧ Transformer.loss_fn bk output tgt = Ok loss
      ∧ Transformer.valid_loss st'
        = Transformer.fadd bk (Transformer.valid_loss st) loss.
Proof.
  unfold Transformer.valid_iteration.
  destruct (Transformer.var_batch st) as [[src tgt]|] eqn:Hb; [|discriminate].
  cbn [Transformer.load_var mbind result_bind].
  destruct (Transformer.model_eval bk _ src tgt) as [output|] eqn:Hout;
    [|discriminate].
  cbn [mbind result_bind].
  destruct (Transformer.loss_fn bk output tgt) as [loss|] eqn:Hloss;
    [|discriminate].
  cbn [mbind result_bind].
  destruct (Transformer.compute_accuracy _ output tgt) as [a|]; [|discriminate].
  cbn [mbind result_bind]. intros [= <-]. cbn.
  split_and!; try done. by exists src, tgt, output, loss.
Qed.

End ValidationFacts.

(** X22.  The validation loop never looks at the batches the validation
    loader yields: two validation loaders with the same number of batches
    give the same epoch, whatever their contents — the same exception, or
    the same final state with the same recorded validation loss and
    accuracy. *)
Theorem X22_validation_ignores_its_batches {P G Opt R Rng : Type}
    (bk : Transformer.Backend P G Opt R Rng) (acc n : nat)
    (st : Transformer.loop_state P G Opt R Rng)
    (train v1 v2 : list (Transformer.Tensor nat * Transformer.Tensor nat)) :
  length v1 = length v2 →
  Transformer.run_epoch bk acc n st train v1
  = Transformer.run_epoch bk acc n st train v2.
Proof.
  intros Hlen. unfold Transformer.run_epoch.
  destruct (Transformer.train_loop bk acc n _ 0 train) as [st1|e]; [|reflexivity].
  cbn [mbind result_bind].
  by rewrite (valid_loop_length bk v1 v2 Hlen).
Qed.

Lemma X22_validation_ignores_its_batches_witness :
  Transformer.run_epoch counting_backend 100 5000 initial_state
    [one_batch 5 7; one_batch 6 8] [one_batch 1 2; one_batch 3 4]
  = Transformer.run_epoch counting_backend 100 5000 initial_state
      [one_batch 5 7; one_batch 6 8] [one_batch 9 9; one_batch 0 0].
Proof.
  apply (X22_validation_ignores_its_batches counting_backend 100 5000
           initial_state [one_batch 5 7; one_batch 6 8]
           [one_batch 1 2; one_batch 3 4] [one_batch 9 9; one_batch 0 0]).
  reflexivity.
Defined.

(** X23.  An epoch whose validation loader yields exactly one batch never
    completes: the report after the validation loop divides by the last
    index [i], which is 0.  When the training loop and the validation step
    succeed, the exception is [ZeroDivisionError], and nothing is appended
    to [vloss] or [vacc]. *)
Theorem X23_one_validation_batch_divides_by_zero {P G Opt R Rng : Type}
    (bk : Transformer.Backend P G Opt R Rng) (acc n : nat)
    (st : Transformer.loop_state P G Opt R Rng)
    (train : list (Transformer.Tensor nat * Transformer.Tensor nat))
    (vb : Transformer.Tensor nat * Transformer.Tensor nat) :
  (∀ st', Transformer.run_epoch bk acc n st train [vb] ≠ Ok st')
  ∧ (∀ st1 st2,
       Transformer.train_loop bk acc n (Transformer.epoch_resets bk st) 0 train
       = Ok st1 →
       Transformer.valid_loop bk st1 0 [vb] = Ok st2 →
       Transformer.run_epoch bk acc n st train [vb] = Raise ZeroDivisionError).
Proof.
  assert (Hdiv : ∀ st1 st2,
    Transformer.train_loop bk acc n (Transformer.epoch_resets bk st) 0 train
    = Ok st1 →
    Transformer.valid_loop bk st1 0 [vb] = Ok st2 →
    Transformer.run_epoch bk acc n st train [vb] = Raise ZeroDivisionError).
  { intros st1 st2 Htrain Hvalid. unfold Transformer.run_epoch.
    rewrite Htrain. cbn [mbind result_bind]. rewrite Hvalid.
    cbn [mbind result_bind].
    cbn [Transformer.valid_loop] in Hvalid.
    destruct (Transformer.valid_iteration bk st1 0 vb) as [st3|e] eqn:Hit;
      [|discriminate].
    cbn [mbind result_bind] in Hvalid. injection Hvalid as <-.
    apply valid_iteration_Ok in Hit as (Hi & _).
    rewrite Hi. cbn [Transformer.load_var mbind result_bind].
    reflexivity. }
  split; [|exact Hdiv].
  intros st' Hrun.
  destruct (Transformer.train_loop bk acc n (Transformer.epoch_resets bk st) 0 train)
    as [st1|e] eqn:Htrain.
  - destruct (Transformer.valid_loop bk st1 0 [vb]) as [st2|e] eqn:Hvalid.
    + by rewrite (Hdiv st1 st2 eq_refl Hvalid) in Hrun.
    + unfold Transformer.run_epoch in Hrun. rewrite Htrain in Hrun.
      cbn [mbind result_bind] in Hrun. by rewrite Hvalid in Hrun.
  - unfold Transformer.run_epoch in Hrun. by rewrite Htrain in Hrun.
Qed.

Lemma X23_one_validation_batch_divides_by_zero_witness :
  Transformer.train_loop counting_backend 100 5000
    (Transformer.epoch_resets counting_backend initial_state) 0
    [one_batch 5 7; one_batch 6 8]
  = Ok (Transformer.mkLoopState 0 tt (Some tt) tt tt tt 0%Q 0%Q
          [tt] [Qmake 1 1] [] [] (Some 1) (Some (one_batch 6 8))) ∧
  Transformer.valid_loop counting_backend
    (Transformer.mkLoopState 0 tt (Some tt) tt tt tt 0%Q 0%Q
       [tt] [Qmake 1 1] [] [] (Some 1) (Some (one_batch 6 8))) 0 [one_batch 1 2]
  = Ok (Transformer.mkLoopState 0 tt (Some tt) tt tt tt 0%Q (0 + Qmake 1 1)%Q
          [tt] [Qmake 1 1] [] [] (Some 0) (Some (one_batch 6 8))) ∧
  Transformer.run_epoch counting_backend 100 5000 initial_state
    [one_batch 5 7; one_batch 6 8] [one_batch 1 2] = Raise ZeroDivisionError.
Proof.
  split; [reflexivity|]. split; [reflexivity|].
  apply (proj2 (X23_one_validation_batch_divides_by_zero counting_backend 100 5000
                  initial_state [one_batch 5 7; one_batch 6 8] (one_batch 1 2))
           (Transformer.mkLoopState 0 tt (Some tt) tt tt tt 0%Q 0%Q
              [tt] [Qmake 1 1] [] [] (Some 1) (Some (one_batch 6 8)))
           (Transformer.mkLoopState 0 tt (Some tt) tt tt tt 0%Q (0 + Qmake 1 1)%Q
              [tt] [Qmake 1 1] [] [] (Some 0) (Some (one_batch 6 8))));
    reflexivity.
Defined.
